(** * A notebook document engine: parser, serializer, cell store, execution

    Shallow embedding of [src/index.tsx].  JavaScript strings are sequences of
    UTF-16 code units; the module-level variables of the script ([cells],
    [cellCounter], [monacoInstances], [cellClipboard], [focusedCellId]) are
    the fields of one record that every operation threads explicitly, and
    the object [persistentScope] is the list of its own properties, each
    with its attributes, passed alongside it. *)

From Stdlib Require Import NArith String Ascii List Bool Lia.
From stdpp Require Import base option list gmap pretty.
Import ListNotations.

Local Open Scope N_scope.

(** ** JavaScript strings *)

Module JsString.

(** A string is its sequence of UTF-16 code units. *)
Definition jsstring : Type := list N.

(** A literal of the source, all of whose characters are ASCII. *)
Definition lit (s : string) : jsstring :=
  map N_of_ascii (list_ascii_of_string s).

Definition LF : N := 10.
Definition DQUOTE : N := 34.

(** A string in a condition is true when it is not empty. *)
Definition truthy (s : jsstring) : bool :=
  match s with [] => false | _ :: _ => true end.

(** [===] on strings. *)
Definition str_eqb (a b : jsstring) : bool := bool_decide (a = b).

(** WhiteSpace and LineTerminator of ECMAScript: what [trim] strips and
    what [\s] matches. *)
Definition isWhiteSpace (c : N) : bool :=
  (c =? 9) || (c =? 10) || (c =? 11) || (c =? 12) || (c =? 13) ||
  (c =? 32) || (c =? 160) || (c =? 5760) ||
  ((8192 <=? c) && (c <=? 8202)) ||
  (c =? 8232) || (c =? 8233) || (c =? 8239) || (c =? 8287) ||
  (c =? 12288) || (c =? 65279).

Fixpoint trimStart (s : jsstring) : jsstring :=
  match s with
  | [] => []
  | c :: s' => if isWhiteSpace c then trimStart s' else s
  end.

Fixpoint trimEnd (s : jsstring) : jsstring :=
  match s with
  | [] => []
  | c :: s' =>
      match trimEnd s' with
      | [] => if isWhiteSpace c then [] else [c]
      | r => c :: r
      end
  end.

(** [s.trim()] *)
Definition trim (s : jsstring) : jsstring := trimEnd (trimStart s).

(** [s.startsWith(p)] *)
Fixpoint startsWith (p s : jsstring) : bool :=
  match p, s with
  | [], _ => true
  | _ :: _, [] => false
  | a :: p', b :: s' => (a =? b) && startsWith p' s'
  end.

(** [s.endsWith(p)] *)
Definition endsWith (p s : jsstring) : bool :=
  startsWith (rev p) (rev s).

(** [s.includes(p)] *)
Fixpoint includes (p s : jsstring) : bool :=
  startsWith p s ||
  match s with
  | [] => false
  | _ :: s' => includes p s'
  end.

(** [s.split('\n')]: never empty, the empty string gives one empty line. *)
Fixpoint split_lines (s : jsstring) : list jsstring :=
  match s with
  | [] => [[]]
  | c :: s' =>
      if c =? LF then [] :: split_lines s'
      else match split_lines s' with
           | [] => [[c]]
           | l :: ls => (c :: l) :: ls
           end
  end.

(** [lines.join('\n')] *)
Fixpoint join_lines (ls : list jsstring) : jsstring :=
  match ls with
  | [] => []
  | [l] => l
  | l :: ls' => l ++ LF :: join_lines ls'
  end.

(** Does the suffix [s] match [\*\/\s*$]? *)
Definition close_tail (s : jsstring) : bool :=
  match s with
  | 42 :: 47 :: w => forallb isWhiteSpace w
  | _ => false
  end.

(** [s.replace(/\*\/\s*$/, '')]: the leftmost position from which the rest
    of the string is the close token and white space is cut off there; a
    string without such a position is returned as it is. *)
Fixpoint strip_close (s : jsstring) : jsstring :=
  match s with
  | [] => []
  | c :: s' => if close_tail s then [] else c :: strip_close s'
  end.

(** The replacement callback of the serializer with its [escapeMap]: the
    characters less-than, greater-than, ampersand, double quote and single
    quote become entities. *)
Definition escapeMap (c : N) : jsstring :=
  if c =? 60 then lit "&lt;"
  else if c =? 62 then lit "&gt;"
  else if c =? 38 then lit "&amp;"
  else if c =? DQUOTE then lit "&quot;"
  else if c =? 39 then lit "&#x27;"
  else [c].

Definition escapeHtml (s : jsstring) : jsstring := flat_map escapeMap s.

(** The sanitizer of an image source: less-than, greater-than, double
    quote and single quote are deleted. *)
Definition stripSrc (s : jsstring) : jsstring :=
  filter (fun c => negb ((c =? 60) || (c =? 62) || (c =? DQUOTE) || (c =? 39))) s.

End JsString.
Export JsString.

(** ** Data model *)

Inductive CellType := js | md.
Inductive Mode := edit | render.

(** [type Output]: the variants with [type: 'log'], [type: 'error'] and
    [type: 'image'].  The field [data] is declared a string, and a script
    can still pass any value to [console.image]: [ImageValue] is the output
    with [type: 'image'] whose [data] is a value of another type, without a
    method [startsWith] (a number, a boolean, [null], [undefined], an object
    that has none); [reason] is the message of the [TypeError] of
    [output.data.startsWith(...)] on that value. *)
Inductive Output :=
| Log (data : jsstring)
| Error (data : jsstring)
| Image (data mime : jsstring)
| ImageValue (reason mime : jsstring).

(** [output.data.startsWith(...)], which [renderOutputs] and
    [downloadNotebook] evaluate for an image, is defined: it throws a
    [TypeError] when [data] is not a string. *)
Definition data_is_string (o : Output) : bool :=
  match o with
  | ImageValue _ _ => false
  | _ => true
  end.

#[global] Instance CellType_eq_dec : EqDecision CellType.
Proof. solve_decision. Defined.
#[global] Instance Mode_eq_dec : EqDecision Mode.
Proof. solve_decision. Defined.
#[global] Instance Output_eq_dec : EqDecision Output.
Proof. solve_decision. Defined.

(** [interface Cell]; an optional field that is [undefined] is [None]. *)
Record Cell := mkCell {
  id : jsstring;
  type : CellType;
  mode : option Mode;
  outputs : list Output;
  isOutputVisible : option bool;
  isExecuted : option bool;
  lastExecutedContent : option jsstring;
}.

#[global] Instance Cell_eq_dec : EqDecision Cell.
Proof. solve_decision. Defined.

(** How a call completes: it returns, or it throws (the promise of an
    [async] function is rejected); [reason] is the message of the error.
    The promise of an [async] function can also stay pending for ever. *)
Inductive Completion :=
| Returned
| Thrown (reason : jsstring)
| Pending.

#[global] Instance Completion_eq_dec : EqDecision Completion.
Proof. solve_decision. Defined.

(** [renderOutputs(outputDiv, outputs)], as far as its completion goes: it
    visits the outputs in order and throws at the first image whose [data]
    is not a string. *)
Fixpoint renderOutputs (outputs : list Output) : Completion :=
  match outputs with
  | [] => Returned
  | ImageValue reason _ :: _ => Thrown reason
  | _ :: rest => renderOutputs rest
  end.

(** ** Document parser *)

Module Parser.

(** An element of [cellsData]. *)
Record CellData := mkCellData {
  cd_type : CellType;
  cd_code : jsstring;
  cd_mode : option Mode;
  cd_outputs : option (list Output);
}.

#[global] Instance CellData_eq_dec : EqDecision CellData.
Proof. solve_decision. Defined.

(** The local variables of [parseNotebookFile]. *)
Record PState := mkPState {
  cellsData : list CellData;
  jsCodeLines : list jsstring;
  mdContent : jsstring;
  outputContent : jsstring;
  inCodeBlock : bool;
  inMdBlock : bool;
  inOutputBlock : bool;
  mdMode : Mode;
}.

Definition init : PState :=
  mkPState [] [] [] [] false false false edit.

Definition CODE_STARTS : jsstring := lit "// [CODE STARTS]".
Definition CODE_ENDS : jsstring := lit "// [CODE ENDS]".
Definition MARKDOWN : jsstring := lit "/* Markdown".
Definition OUTPUT : jsstring := lit "/* Output".
Definition RENDER : jsstring := lit "(render)".
Definition CLOSE : jsstring := lit "*/".

Definition addJsCell (st : PState) : PState :=
  match jsCodeLines st with
  | [] => st
  | _ :: _ =>
      mkPState
        (cellsData st ++
           [mkCellData js (trim (join_lines (jsCodeLines st))) None (Some [])])
        [] (mdContent st) (outputContent st)
        (inCodeBlock st) (inMdBlock st) (inOutputBlock st) (mdMode st)
  end.

Definition addMdCell (st : PState) : PState :=
  if truthy (trim (mdContent st)) then
    mkPState
      (cellsData st ++
         [mkCellData md (trim (mdContent st)) (Some (mdMode st)) None])
      (jsCodeLines st) [] (outputContent st)
      (inCodeBlock st) (inMdBlock st) (inOutputBlock st) (mdMode st)
  else st.

(** [lastJsCell.outputs.push(o)], after [outputs] is set to the empty array
    where it was missing. *)
Definition push_output (o : Output) (c : CellData) : CellData :=
  mkCellData (cd_type c) (cd_code c) (cd_mode c)
    (Some (default [] (cd_outputs c) ++ [o])).

(** The first [js] element of the list receives the output. *)
Fixpoint push_first_js (o : Output) (cs : list CellData) : list CellData :=
  match cs with
  | [] => []
  | c :: cs' =>
      match cd_type c with
      | js => push_output o c :: cs'
      | md => c :: push_first_js o cs'
      end
  end.

(** [[...cellsData].reverse().find((c) => c.type === 'js')] is the last
    [js] element; it is an element of [cellsData] itself, so the push is
    seen there. *)
Definition push_last_js (o : Output) (cs : list CellData) : list CellData :=
  rev (push_first_js o (rev cs)).

Definition addOutput (st : PState) : PState :=
  if truthy (trim (outputContent st)) && negb (Nat.eqb (length (cellsData st)) 0)
  then
    mkPState
      (push_last_js (Log (trim (outputContent st))) (cellsData st))
      (jsCodeLines st) (mdContent st) []
      (inCodeBlock st) (inMdBlock st) (inOutputBlock st) (mdMode st)
  else st.

(** [acc += (acc ? '\n' : '') + line] *)
Definition append_line (acc line : jsstring) : jsstring :=
  acc ++ (if truthy acc then [LF] else []) ++ line.

Definition set_flags (c m o : bool) (st : PState) : PState :=
  mkPState (cellsData st) (jsCodeLines st) (mdContent st) (outputContent st)
    c m o (mdMode st).

Definition set_mdMode (m : Mode) (st : PState) : PState :=
  mkPState (cellsData st) (jsCodeLines st) (mdContent st) (outputContent st)
    (inCodeBlock st) (inMdBlock st) (inOutputBlock st) m.

Definition set_mdContent (s : jsstring) (st : PState) : PState :=
  mkPState (cellsData st) (jsCodeLines st) s (outputContent st)
    (inCodeBlock st) (inMdBlock st) (inOutputBlock st) (mdMode st).

Definition set_outputContent (s : jsstring) (st : PState) : PState :=
  mkPState (cellsData st) (jsCodeLines st) (mdContent st) s
    (inCodeBlock st) (inMdBlock st) (inOutputBlock st) (mdMode st).

Definition set_jsCodeLines (l : list jsstring) (st : PState) : PState :=
  mkPState (cellsData st) l (mdContent st) (outputContent st)
    (inCodeBlock st) (inMdBlock st) (inOutputBlock st) (mdMode st).

(** The body of [lines.forEach((line) => ...)]. *)
Definition step (st : PState) (line : jsstring) : PState :=
  let trimmed := trim line in
  if str_eqb trimmed CODE_STARTS then
    set_flags true false false (addOutput (addMdCell st))
  else if str_eqb trimmed CODE_ENDS then
    let st1 := addJsCell st in
    set_flags false (inMdBlock st1) (inOutputBlock st1) st1
  else if startsWith MARKDOWN trimmed then
    let st1 := addOutput (addJsCell st) in
    set_flags false true false
      (set_mdMode (if includes RENDER trimmed then render else edit) st1)
  else if startsWith OUTPUT trimmed then
    set_flags false false true (addMdCell (addJsCell st))
  else if endsWith CLOSE trimmed then
    let contentLine := trim (strip_close line) in
    let st1 :=
      if truthy contentLine then
        if inMdBlock st then
          set_mdContent (append_line (mdContent st) contentLine) st
        else if inOutputBlock st then
          set_outputContent (append_line (outputContent st) contentLine) st
        else st
      else st in
    let st2 :=
      if inMdBlock st1 then addMdCell st1
      else if inOutputBlock st1 then addOutput st1
      else st1 in
    set_flags (inCodeBlock st2) false false st2
  else if inCodeBlock st then
    set_jsCodeLines (jsCodeLines st ++ [line]) st
  else if inMdBlock st then
    set_mdContent (append_line (mdContent st) line) st
  else if inOutputBlock st then
    set_outputContent (append_line (outputContent st) line) st
  else st.

Definition finish (st : PState) : PState :=
  addOutput (addMdCell (addJsCell st)).

Definition parseNotebookFile (content : jsstring) : list CellData :=
  cellsData (finish (fold_left step (split_lines content) init)).

End Parser.

(** ** Document serializer *)

Module Serializer.

Definition NL : jsstring := [LF].

(** The text written for one output inside the output block: the image
    tag, or the escaped data.  Nothing is written for an image whose [data]
    is not a string: [output.data.startsWith] throws there, see
    [downloadNotebook]. *)
Definition outputText (o : Output) : jsstring :=
  match o with
  | Image data mime =>
      let imgSrc :=
        if startsWith (lit "data:") data then data
        else lit "data:" ++ mime ++ lit ";base64," ++ data in
      let sanitizedSrc := stripSrc imgSrc in
      lit "<img src=" ++ [DQUOTE] ++ sanitizedSrc ++ [DQUOTE] ++
      lit " style=" ++ [DQUOTE] ++ lit "height:auto; width:100%;" ++ [DQUOTE] ++
      lit " />"
  | Log data | Error data => escapeHtml data
  | ImageValue _ _ => []
  end.

Definition serializeOutput (o : Output) : jsstring :=
  outputText o ++ NL ++ NL.

(** The text appended to [content] for one cell whose editor holds
    [code]. *)
Definition serializeCell (cell : Cell) (code : jsstring) : jsstring :=
  match type cell with
  | md =>
      let marker :=
        if bool_decide (mode cell = Some render)
        then lit "/* Markdown (render)" else lit "/* Markdown" in
      marker ++ NL ++ code ++ NL ++ lit "*/" ++ NL ++ NL
  | js =>
      lit "// [CODE STARTS]" ++ NL ++ code ++ NL ++ lit "// [CODE ENDS]" ++ NL ++ NL ++
      match outputs cell with
      | [] => []
      | _ :: _ =>
          lit "/* Output Sample" ++ NL ++ NL ++
          flat_map serializeOutput (outputs cell) ++
          lit "*/" ++ NL ++ NL
      end
  end.

(** The text of the downloaded blob: [content.trim()]. *)
Definition serialize (doc : list (Cell * jsstring)) : jsstring :=
  trim (flat_map (fun p => serializeCell (fst p) (snd p)) doc).

End Serializer.

(** ** Cell store, focus and clipboard *)

(** What the engine reads from a Monaco editor instance. *)
Record Editor := mkEditor {
  getValue : jsstring;
  hasTextFocus : bool;
}.

(** The module-level variables.  The id of every cell of the store was
    made by [addCell].  [monacoInstances] keeps its keys in
    insertion order, the order in which [for ... in] visits them (the ids
    that [addCell] makes are no array indices).  [attached]
    holds the ids of the cells whose container, editor container and output
    element are in the document, and [timeouts] the cells for which
    [setTimeout(() => runCell(cellId), 0)] is pending. *)
Record Notebook := mkNotebook {
  cellCounter : nat;
  cells : list Cell;
  monacoInstances : list (jsstring * Editor);
  cellClipboard : option (Cell * jsstring);
  focusedCellId : option jsstring;
  attached : gset jsstring;
  timeouts : list jsstring;
}.

Definition empty_notebook : Notebook :=
  mkNotebook 0 [] [] None None ∅ [].

Module Store.

Definition set_cells (f : list Cell → list Cell) (st : Notebook) : Notebook :=
  mkNotebook (cellCounter st) (f (cells st)) (monacoInstances st)
    (cellClipboard st) (focusedCellId st) (attached st) (timeouts st).

Definition set_monacoInstances
    (f : list (jsstring * Editor) → list (jsstring * Editor))
    (st : Notebook) : Notebook :=
  mkNotebook (cellCounter st) (cells st) (f (monacoInstances st))
    (cellClipboard st) (focusedCellId st) (attached st) (timeouts st).

Definition set_cellClipboard (c : option (Cell * jsstring)) (st : Notebook) : Notebook :=
  mkNotebook (cellCounter st) (cells st) (monacoInstances st)
    c (focusedCellId st) (attached st) (timeouts st).

Definition set_focusedCellId (f : option jsstring) (st : Notebook) : Notebook :=
  mkNotebook (cellCounter st) (cells st) (monacoInstances st)
    (cellClipboard st) f (attached st) (timeouts st).

(** [cells.find((c) => c.id === cellId)] *)
Definition find_cell (cellId : jsstring) (cs : list Cell) : option Cell :=
  snd <$> list_find (λ c, id c = cellId) cs.

(** [cells.findIndex((c) => c.id === cellId)]; [None] is [-1]. *)
Definition findIndex (cellId : jsstring) (cs : list Cell) : option nat :=
  fst <$> list_find (λ c, id c = cellId) cs.

(** An assignment to fields of the object that [cells.find] returned: the
    first cell with that id changes, inside the array. *)
Definition update_cell (cellId : jsstring) (f : Cell → Cell) (cs : list Cell) : list Cell :=
  match list_find (λ c, id c = cellId) cs with
  | Some (i, c) => <[i := f c]> cs
  | None => cs
  end.

(** [monacoInstances[cellId]] as an own property: the editor that
    [addCell] stored under [cellId]. *)
Definition editor_of (cellId : jsstring) (m : list (jsstring * Editor)) : option Editor :=
  snd <$> (snd <$> list_find (λ p, fst p = cellId) m).

(** The property names of [Object.prototype].  [monacoInstances] is made by
    an object literal, so [monacoInstances[name]] under such a name with no
    own property is what the object inherits, which is truthy and is no
    editor.  No id that [addCell] makes is such a name. *)
Definition object_prototype_names : list jsstring :=
  [lit "constructor"; lit "__defineGetter__"; lit "__defineSetter__";
   lit "hasOwnProperty"; lit "__lookupGetter__"; lit "__lookupSetter__";
   lit "isPrototypeOf"; lit "propertyIsEnumerable"; lit "toString";
   lit "valueOf"; lit "__proto__"; lit "toLocaleString"].

Definition inherited (name : jsstring) : bool :=
  bool_decide (name ∈ object_prototype_names).

(** The message of the [TypeError] of a call of [dispose] on a value that
    has no such method. *)
Definition dispose_is_not_a_function : jsstring :=
  lit "monacoInstances[cellId].dispose is not a function".

(** [monacoInstances[cellId] = e] *)
Definition editor_set (cellId : jsstring) (e : Editor) (m : list (jsstring * Editor))
    : list (jsstring * Editor) :=
  match list_find (λ p, fst p = cellId) m with
  | Some (i, _) => <[i := (cellId, e)]> m
  | None => m ++ [(cellId, e)]
  end.

(** [delete monacoInstances[cellId]] *)
Definition editor_delete (cellId : jsstring) (m : list (jsstring * Editor))
    : list (jsstring * Editor) :=
  filter (λ p, fst p ≠ cellId) m.

(** [a.splice(i, 0, x)]: an index past the end appends. *)
Definition splice_insert {A} (i : nat) (x : A) (l : list A) : list A :=
  take i l ++ x :: drop i l.

(** [`cell${n}`] *)
Definition cell_name (n : nat) : jsstring := lit "cell" ++ lit (pretty n).

(** [addCell(code, type, preRender, outputs, index)]; [index] is [None] when
    the argument is left out.  The element with id [notebook] exists, so the
    new container is attached to the document. *)
Definition addCell (code : jsstring) (ty : CellType) (preRender : bool)
    (outs : list Output) (index : option nat) (st : Notebook) : Notebook :=
  let cellId := cell_name (cellCounter st) in
  let newCellData :=
    mkCell cellId ty
      (match ty with md => Some edit | js => None end)
      outs
      (Some (match ty with
             | js => negb (Nat.eqb (length outs) 0)
             | md => preRender
             end))
      None None in
  mkNotebook
    (S (cellCounter st))
    (match index with
     | Some i => splice_insert i newCellData (cells st)
     | None => cells st ++ [newCellData]
     end)
    (editor_set cellId (mkEditor code false) (monacoInstances st))
    (cellClipboard st)
    (focusedCellId st)
    ({[cellId]} ∪ attached st)
    (match ty with
     | md => if preRender then timeouts st ++ [cellId] else timeouts st
     | js => timeouts st
     end).

(** [deleteCell(cellId)].  The cell is taken out of [cells] and its
    container out of the document; then [monacoInstances[cellId]] is tested:
    an own editor is disposed of and deleted; under an inherited name the
    value is truthy and has no [dispose], and the call throws. *)
Definition deleteCell (cellId : jsstring) (st : Notebook) : Completion * Notebook :=
  let st1 :=
    mkNotebook
      (cellCounter st)
      (match findIndex cellId (cells st) with
       | Some idx => delete idx (cells st)
       | None => cells st
       end)
      (monacoInstances st)
      (cellClipboard st)
      (focusedCellId st)
      (attached st ∖ {[cellId]})
      (timeouts st) in
  match editor_of cellId (monacoInstances st) with
  | Some _ => (Returned, set_monacoInstances (editor_delete cellId) st1)
  | None =>
      if inherited cellId then (Thrown dispose_is_not_a_function, st1)
      else (Returned, st1)
  end.

Inductive Direction := up | down.

(** [moveCell(cellId, direction)]; the order of the containers in the
    document is not part of the state. *)
Definition moveCell (cellId : jsstring) (direction : Direction) (st : Notebook) : Notebook :=
  match list_find (λ c, id c = cellId) (cells st) with
  | None => st
  | Some (cellIndex, movedCell) =>
      match direction, cellIndex with
      | up, O => st
      | up, S newIndex =>
          set_cells (λ cs, splice_insert newIndex movedCell (delete cellIndex cs)) st
      | down, _ =>
          let newIndex := S cellIndex in
          if Nat.leb (length (cells st)) newIndex then st
          else set_cells (λ cs, splice_insert newIndex movedCell (delete cellIndex cs)) st
      end
  end.

(** The [onEnd] handler of the drag-and-drop source.  An index that the
    event leaves out is [None].  The array is given by its slots, and a
    slot that holds [undefined] is [None]: [cells.splice(oldIndex, 1)]
    returns the empty array when [oldIndex] is past the end, [movedItem] is
    then [undefined], and the second [splice] inserts it. *)
Definition onEnd (oldIndex newIndex : option nat) (slots : list (option Cell))
    : list (option Cell) :=
  match oldIndex, newIndex with
  | Some o, Some n =>
      if Nat.eqb o n then slots
      else
        let movedItem := mjoin (slots !! o) in
        splice_insert n movedItem (delete o slots)
  | _, _ => slots
  end.

(** The array of cells as slots, and back when no slot is [undefined]. *)
Definition to_slots (cs : list Cell) : list (option Cell) := Some <$> cs.

Fixpoint of_slots (l : list (option Cell)) : option (list Cell) :=
  match l with
  | [] => Some []
  | None :: _ => None
  | Some c :: l' => (c ::.) <$> of_slots l'
  end.

(** The handler [onDidFocusEditorText] of the editor of [cellId]: the
    editor has gained the text focus, which no other editor then has. *)
Definition onDidFocusEditorText (cellId : jsstring) (st : Notebook) : Notebook :=
  match editor_of cellId (monacoInstances st) with
  | None => st
  | Some _ =>
      set_focusedCellId (Some cellId)
        (set_monacoInstances
           (fmap (λ p, (fst p, mkEditor (getValue (snd p)) (bool_decide (fst p = cellId)))))
           st)
  end.

(** The condition [if (focusedCellId)]: the recorded id when it is neither
    [null] nor the empty string. *)
Definition recorded_focus (st : Notebook) : option jsstring :=
  match focusedCellId st with
  | Some f => if truthy f then Some f else None
  | None => None
  end.

(** [getFocusedCell()]: the cell, or [None] for [null], and the state
    after the assignments to [focusedCellId]. *)
Definition getFocusedCell (st : Notebook) : option Cell * Notebook :=
  match recorded_focus st with
  | Some f => (find_cell f (cells st), st)
  | None =>
      match list_find (λ p, hasTextFocus (snd p) = true) (monacoInstances st) with
      | Some (_, (cellId, _)) =>
          (find_cell cellId (cells st), set_focusedCellId (Some cellId) st)
      | None =>
          match cells st with
          | c :: _ => (Some c, set_focusedCellId (Some (id c)) st)
          | [] => (None, st)
          end
      end
  end.

(** The text that [cutCell] and [copyCell] snapshot.  The id is that of a
    cell of the store, which [addCell] made: [monacoInstances[cell.id]] is
    the own editor or [undefined]. *)
Definition code_of (cellId : jsstring) (st : Notebook) : jsstring :=
  match editor_of cellId (monacoInstances st) with
  | Some editor => getValue editor
  | None => []
  end.

(** [cutCell()] *)
Definition cutCell (st : Notebook) : Completion * Notebook :=
  match getFocusedCell st with
  | (None, st1) => (Returned, st1)
  | (Some cell, st1) =>
      deleteCell (id cell)
        (set_cellClipboard (Some (cell, code_of (id cell) st1)) st1)
  end.

(** [copyCell()] *)
Definition copyCell (st : Notebook) : Notebook :=
  match getFocusedCell st with
  | (None, st1) => st1
  | (Some cell, st1) =>
      set_cellClipboard (Some (cell, code_of (id cell) st1)) st1
  end.

(** [pasteCell()] *)
Definition pasteCell (st : Notebook) : Notebook :=
  match cellClipboard st with
  | None => st
  | Some (cellData, code) =>
      let '(focusedCell, st1) := getFocusedCell st in
      let insertIndex :=
        match focusedCell with
        | Some fc =>
            match findIndex (id fc) (cells st1) with
            | Some focusedIndex => S focusedIndex
            | None => O
            end
        | None => length (cells st1)
        end in
      addCell code (type cellData)
        (bool_decide (type cellData = md) && bool_decide (mode cellData = Some render))
        (outputs cellData) (Some insertIndex) st1
  end.

(** The cells of the store, each with the text of its editor; [None] when
    a cell has no editor, where [editor.getValue()] throws. *)
Definition document (st : Notebook) : option (list (Cell * jsstring)) :=
  mapM (λ cell, (λ editor, (cell, getValue editor)) <$>
                editor_of (id cell) (monacoInstances st))
       (cells st).

(** The text of the blob that [downloadNotebook()] offers; [None] when
    the function throws: at [editor.getValue()] for a cell without editor,
    or at [output.data.startsWith] for an image output of a code cell whose
    [data] is not a string. *)
Definition downloadNotebook (st : Notebook) : option jsstring :=
  match document st with
  | Some doc =>
      if forallb (λ p : Cell * jsstring,
                    match type (fst p) with
                    | md => true
                    | js => forallb data_is_string (outputs (fst p))
                    end) doc
      then Some (Serializer.serialize doc)
      else None
  | None => None
  end.

End Store.

(** ** Staleness tracker *)

Module Staleness.
Import Store.

Definition set_executed (e : option bool) (content : option jsstring) (c : Cell) : Cell :=
  mkCell (id c) (type c) (mode c) (outputs c) (isOutputVisible c) e content.

(** [markCellAsExecuted(cellId, content)] *)
Definition markCellAsExecuted (cellId content : jsstring) (st : Notebook) : Notebook :=
  match find_cell cellId (cells st) with
  | Some _ =>
      if bool_decide (cellId ∈ attached st)
      then set_cells (update_cell cellId (set_executed (Some true) (Some content))) st
      else st
  | None => st
  end.

(** [markCellAsUnexecuted(cellId)] *)
Definition markCellAsUnexecuted (cellId : jsstring) (st : Notebook) : Notebook :=
  match find_cell cellId (cells st) with
  | Some _ =>
      if bool_decide (cellId ∈ attached st)
      then set_cells (update_cell cellId (set_executed (Some false) None)) st
      else st
  | None => st
  end.

(** [checkContentChanged(cellId, currentContent)] *)
Definition checkContentChanged (cellId currentContent : jsstring) (st : Notebook) : bool :=
  match find_cell cellId (cells st) with
  | None => true
  | Some cell =>
      negb (bool_decide (isExecuted cell = Some true)) ||
      negb (bool_decide (lastExecutedContent cell = Some currentContent))
  end.

(** The handler [onDidChangeModelContent] of the editor of [cellId]. *)
Definition onDidChangeModelContent (cellId : jsstring) (st : Notebook) : Notebook :=
  match editor_of cellId (monacoInstances st) with
  | None => st
  | Some editorInstance =>
      let currentContent := getValue editorInstance in
      if checkContentChanged cellId currentContent st
      then markCellAsUnexecuted cellId st
      else st
  end.

(** A content change: the text of the editor of [cellId] becomes [text]
    and the editor notifies its handler. *)
Definition contentChanged (cellId text : jsstring) (st : Notebook) : Notebook :=
  match editor_of cellId (monacoInstances st) with
  | None => st
  | Some editorInstance =>
      onDidChangeModelContent cellId
        (set_monacoInstances
           (editor_set cellId (mkEditor text (hasTextFocus editorInstance))) st)
  end.

End Staleness.

(** ** Execution engine *)

(** A call of the script on the capture surface that [runCell] passes as
    [console]; [ConsoleLog] carries the text that mapping and joining the
    arguments produced, [ConsoleImage] its first argument, and the text of
    the [mime] argument when it was given.  The first argument is a string,
    or a value of another type as in [ImageValue], with the message of the
    [TypeError] of [startsWith] on it. *)
Inductive ImageData :=
| StringData (base64 : jsstring)
| OtherData (reason : jsstring).

Inductive ConsoleCall :=
| ConsoleLog (text : jsstring)
| ConsoleError (text : jsstring)
| ConsoleImage (data : ImageData) (mime : option jsstring).

(** How the promise of the script settled; a rejection carries the
    [errorMessage] that [runCell] computes from the reason.  [Unsettled] is
    a promise that never settles: the script waits for ever, or does not
    terminate. *)
Inductive Settled :=
| Fulfilled
| Rejected (errorMessage : jsstring)
| Unsettled.

(** One step between the call of a script and the settlement of its
    promise, as the notebook sees it: a call on the [console] that this call
    of [runCell] made for the script, or anything else that changes the
    notebook in that time.  A script reaches the notebook in these other
    ways: through a [console] that an earlier run left in [persistentScope],
    which still writes into the cell of that run; through the functions that
    [Object.assign(window, ...)] exports ([deleteCell], [addCell],
    [runCell], [restartKernel] and the others); through the document.  While
    the script waits, a timer or a promise that an earlier run left behind,
    or a handler of the page, can run as well.  What such a step does to the
    store is left open. *)
Inductive Step :=
| OnConsole (call : ConsoleCall)
| Elsewhere (change : Notebook → Notebook).

Module Engine.
Import Store Staleness.

(** *** The persistent scope *)

Section WithValues.

(** The values that scripts keep in [persistentScope]. *)
Context {value : Type}.

(** An own property with its attributes.  [enumerable] and [configurable]
    are those of every property; [prop_value] and [writable] describe a
    data property. *)
Record Property := mkProperty {
  prop_value : value;
  writable : bool;
  enumerable : bool;
  configurable : bool;
}.

(** [persistentScope]: its own properties whose name is a string, in the
    order in which [for ... in] visits them, each name once.  The object is
    made by an object literal: what it inherits is not enumerable, and the
    loops below skip it by [hasOwnProperty]. *)
Local Abbreviation Scope := (list (jsstring * Property)).

(** The own property under [key]. *)
Fixpoint scope_get (key : jsstring) (scope : Scope) : option Property :=
  match scope with
  | [] => None
  | (k, p) :: rest => if decide (k = key) then Some p else scope_get key rest
  end.







(** [persistentScope[x] = v] in the text of a cell, which is not strict
    code, for a name [x] that is no array index and no property of
    [Object.prototype], on an object that can still be extended: the value
    of an own property changes when the property is writable and stays
    otherwise, with no error; a new property comes last and has every
    attribute. *)
Fixpoint assign (x : jsstring) (v : value) (scope : Scope) : Scope :=
  match scope with
  | [] => [(x, mkProperty v true true true)]
  | (k, p) :: rest =>
      if decide (k = x)
      then (k, if writable p
               then mkProperty v true (enumerable p) (configurable p)
               else p) :: rest
      else (k, p) :: assign x v rest
  end.



End WithValues.

Arguments Property : clear implicits.

Abbreviation Scope value := (list (jsstring * Property value)).

(** *** Runs *)

Section WithRuntime.

Context {value : Type}.

(** One run of a compiled script on the scope it was given, from the call
    to the settlement of its promise: the steps of that time, in order, the
    scope at the settlement, and how the promise settled; for a promise
    that never settles, the steps and the scope up to the last thing that
    the script did.  [unfinished] says that the script left something
    behind that runs after the settlement: a timer, a promise that nothing
    awaits, a listener.  What such a thing does later to the notebook is a
    step of the run in which it happens; what it does to the scope between
    two runs is not part of either. *)
Record Run := mkRun {
  steps : list Step;
  scope_after : Scope value;
  settled : Settled;
  unfinished : bool;
}.

Definition Script : Type := Scope value → Run.

(** [new AsyncFunction('console', 'fetch', 'persistentScope',
    'cellScope', body)] of the JavaScript runtime: the compiled script,
    or the message of the [SyntaxError] it throws. *)
Variable AsyncFunction : jsstring → jsstring + Script.

(** The template literal that wraps the text of the cell. *)
Definition fn_body (code : jsstring) : jsstring :=
  [LF] ++ lit "    try {" ++ [LF] ++
  lit "      " ++ code ++ [LF] ++
  lit "    } catch (e) {" ++ [LF] ++
  lit "      console.error(e);" ++ [LF] ++
  lit "    }" ++ [LF] ++
  lit "  ".

Definition output_of (call : ConsoleCall) : Output :=
  match call with
  | ConsoleLog text => Log text
  | ConsoleError text => Error text
  | ConsoleImage (StringData base64) mime => Image base64 (default (lit "image/png") mime)
  | ConsoleImage (OtherData reason) mime => ImageValue reason (default (lit "image/png") mime)
  end.

(** One method of [sandboxConsole], up to the call of [renderOutputs] in
    [showOutput]: the push, then [cell.isOutputVisible = true]. *)
Definition sandboxConsole (call : ConsoleCall) (c : Cell) : Cell :=
  mkCell (id c) (type c) (mode c) (outputs c ++ [output_of call])
    (Some true) (isExecuted c) (lastExecutedContent c).

Definition set_outputs (outs : list Output) (c : Cell) : Cell :=
  mkCell (id c) (type c) (mode c) outs
    (isOutputVisible c) (isExecuted c) (lastExecutedContent c).

Definition set_mode (m : Mode) (visible : bool) (c : Cell) : Cell :=
  mkCell (id c) (type c) (Some m) (outputs c)
    (Some visible) (isExecuted c) (lastExecutedContent c).

(** What one step of the script of [cellId] does to the store.  The
    [console] writes into the cell record that [runCell] found; ids are not
    used twice, so this is the cell of that id as long as the store holds
    it.  When [renderOutputs] throws in [showOutput], the push and the
    assignment have been made and the error goes to the script. *)
Definition do_step (cellId : jsstring) (st : Notebook) (s : Step) : Notebook :=
  match s with
  | OnConsole call => set_cells (update_cell cellId (sandboxConsole call)) st
  | Elsewhere change => change st
  end.

(** The calls on its own [console] among the steps of a run. *)
Definition console_calls (run : Run) : list ConsoleCall :=
  flat_map (λ s, match s with OnConsole call => [call] | Elsewhere _ => [] end) (steps run).

(** [runCell(cellId)].  [editor.focus()] gives the editor the text focus,
    on which its handler [onDidFocusEditorText] runs.  In the handler of a
    rejection, [sandboxConsole.error] calls [renderOutputs] on the outputs
    of the cell record; when the script has taken that cell out of the
    store, these are the outputs that this run pushed. *)
Definition runCell (cellId : jsstring) (st : Notebook) (persistentScope : Scope value)
    : Completion * Notebook * Scope value :=
  match find_cell cellId (cells st), editor_of cellId (monacoInstances st) with
  | Some cell, Some editor =>
      if negb (bool_decide (cellId ∈ attached st)) then (Returned, st, persistentScope)
      else
        let code := getValue editor in
        match type cell with
        | md =>
            if bool_decide (mode cell = Some edit) then
              (Returned,
               set_cells (update_cell cellId (set_mode render true)) st,
               persistentScope)
            else
              (Returned,
               onDidFocusEditorText cellId
                 (set_cells (update_cell cellId (set_mode edit false)) st),
               persistentScope)
        | js =>
            let st1 := set_cells (update_cell cellId (set_outputs [])) st in
            match AsyncFunction (fn_body code) with
            | inl syntaxError => (Thrown syntaxError, st1, persistentScope)
            | inr fn =>
                let run := fn persistentScope in
                let st2 := fold_left (do_step cellId) (steps run) st1 in
                match settled run with
                | Fulfilled =>
                    (Returned, markCellAsExecuted cellId code st2, scope_after run)
                | Rejected errorMessage =>
                    let uncaught :=
                      ConsoleError (lit "Uncaught:" ++ lit " " ++ errorMessage) in
                    let st3 :=
                      set_cells (update_cell cellId (sandboxConsole uncaught)) st2 in
                    let rendered :=
                      match find_cell cellId (cells st3) with
                      | Some c => outputs c
                      | None => output_of <$> (console_calls run ++ [uncaught])
                      end in
                    match renderOutputs rendered with
                    | Returned =>
                        (Returned, markCellAsExecuted cellId code st3, scope_after run)
                    | completion => (completion, st3, scope_after run)
                    end
                | Unsettled => (Pending, st2, scope_after run)
                end
            end
        end
  | _, _ => (Returned, st, persistentScope)
  end.






(** A script that assigns [v] to the name [x] of the scope it is given. *)
Definition storing (x : jsstring) (v : value) : Script :=
  λ persistentScope, mkRun [] (assign x v persistentScope) Fulfilled false.


(** A script that reads [persistentScope[x]], for a name [x] that the
    object does not inherit, and reports what it found on [console],
    leaving the scope as it is: the value of the own property, or [None]
    for a name that is absent. *)
Definition reading (x : jsstring) (report : option value → list ConsoleCall) : Script :=
  λ persistentScope,
    mkRun (OnConsole <$> report (prop_value <$> scope_get x persistentScope))
      persistentScope Fulfilled false.

End WithRuntime.

Arguments Run : clear implicits.
Arguments Script : clear implicits.

End Engine.

(** ** Vocabulary of the round trip *)

Module RoundTrip.
Import Parser Serializer.

(** What the round trip compares: kind, text, mode and outputs; a parsed
    cell without [outputs] is read as [addCell] reads it, with the empty
    array. *)
Definition CellView : Type := CellType * jsstring * option Mode * list Output.

Definition view_of_cell (p : Cell * jsstring) : CellView :=
  (type (fst p), snd p, mode (fst p), outputs (fst p)).

Definition view_of_data (d : CellData) : CellView :=
  (cd_type d, cd_code d, cd_mode d, default [] (cd_outputs d)).

(** A line that no branch of the parser takes for a marker. *)
Definition plain_line (line : jsstring) : bool :=
  let trimmed := trim line in
  negb (str_eqb trimmed CODE_STARTS) &&
  negb (str_eqb trimmed CODE_ENDS) &&
  negb (startsWith MARKDOWN trimmed) &&
  negb (startsWith OUTPUT trimmed) &&
  negb (endsWith CLOSE trimmed).

(** A text none of whose lines collides with a marker token. *)
Definition marker_free (s : jsstring) : bool :=
  forallb plain_line (split_lines s).

Definition output_texts (o : Output) : list jsstring :=
  match o with
  | Log data | Error data => [data]
  | Image data mime => [data; mime]
  | ImageValue _ mime => [mime]
  end.

(** The precondition of the round trip as the specification words it. *)
Definition collision_free (p : Cell * jsstring) : bool :=
  marker_free (snd p) &&
  forallb (λ o, forallb marker_free (output_texts o)) (outputs (fst p)).

(** A text that [trim] leaves as it is and that is free of markers. *)
Definition text_ok (s : jsstring) : bool :=
  str_eqb (trim s) s && marker_free s.

(** The characters that the serializer replaces by entities. *)
Definition html_special (c : N) : bool :=
  (c =? 60) || (c =? 62) || (c =? 38) || (c =? DQUOTE) || (c =? 39).

(** An output that survives the round trip: a log whose text is not empty,
    is trimmed, is free of markers and has no character to escape. *)
Definition output_ok (o : Output) : bool :=
  match o with
  | Log data => truthy data && text_ok data && forallb (λ c, negb (html_special c)) data
  | _ => false
  end.

(** A cell that survives the round trip.  A text cell has a mode, no
    outputs and a text that is not empty; a code cell has no mode and at most
    one output. *)
Definition cell_ok (p : Cell * jsstring) : bool :=
  match type (fst p) with
  | md =>
      truthy (snd p) && text_ok (snd p) &&
      bool_decide (is_Some (mode (fst p))) &&
      bool_decide (outputs (fst p) = [])
  | js =>
      text_ok (snd p) &&
      bool_decide (mode (fst p) = None) &&
      match outputs (fst p) with
      | [] => true
      | [o] => output_ok o
      | _ => false
      end
  end.

(** The parsed record that corresponds to a cell of the store. *)
Definition data_of (p : Cell * jsstring) : CellData :=
  match type (fst p) with
  | md => mkCellData md (snd p) (mode (fst p)) None
  | js => mkCellData js (snd p) None (Some (outputs (fst p)))
  end.

(** The lines that the serializer writes for one cell, up to the blank line
    that ends the block. *)
Definition cell_lines (p : Cell * jsstring) : list jsstring :=
  match type (fst p) with
  | md =>
      [if bool_decide (mode (fst p) = Some render)
       then lit "/* Markdown (render)" else lit "/* Markdown"] ++
      split_lines (snd p) ++ [CLOSE]
  | js =>
      [CODE_STARTS] ++ split_lines (snd p) ++ [CODE_ENDS] ++
      match outputs (fst p) with
      | [] => []
      | _ :: _ =>
          [[]; lit "/* Output Sample"; []] ++
          flat_map (λ o, split_lines (outputText o) ++ [[]]) (outputs (fst p)) ++
        [CLOSE]
      end
  end.

(** [l1 + '\n' + l2 + '\n' + ...]: every line followed by a line feed. *)
Definition unlines (ls : list jsstring) : jsstring :=
  flat_map (λ l, l ++ [LF]) ls.

(** The parser between two blocks: nothing pending and no block open. *)
Definition clean (acc : list CellData) (m : Mode) : PState :=
  mkPState acc [] [] [] false false false m.

End RoundTrip.

Local Close Scope N_scope.

(** ** Sequences of store operations *)

Module Trace.
Import Store.

Inductive Op :=
| Insert (code : jsstring) (ty : CellType) (preRender : bool)
    (outs : list Output) (index : option nat)
| Delete (cellId : jsstring)
| Move (cellId : jsstring) (direction : Direction)
| Reorder (oldIndex newIndex : option nat).

(** The store after one operation, whether the call returned or threw;
    [None] when the handler of the drag left a slot of the array that holds
    no cell. *)
Definition apply (op : Op) (st : Notebook) : option Notebook :=
  match op with
  | Insert code ty preRender outs index =>
      Some (addCell code ty preRender outs index st)
  | Delete cellId => Some (snd (deleteCell cellId st))
  | Move cellId direction => Some (moveCell cellId direction st)
  | Reorder oldIndex newIndex =>
      (λ cs, set_cells (λ _, cs) st) <$>
      of_slots (onEnd oldIndex newIndex (to_slots (cells st)))
  end.

Fixpoint run (ops : list Op) (st : Notebook) : option Notebook :=
  match ops with
  | [] => Some st
  | op :: ops' =>
      match apply op st with
      | Some st' => run ops' st'
      | None => None
      end
  end.

(** The cells that an operation creates and deletes in a given store. *)
Definition creates (op : Op) : nat :=
  match op with Insert _ _ _ _ _ => 1 | _ => 0 end.

Definition deletes (op : Op) (st : Notebook) : nat :=
  match op with
  | Delete cellId => if findIndex cellId (cells st) is Some _ then 1 else 0
  | _ => 0
  end.

Fixpoint created (ops : list Op) : nat :=
  match ops with
  | [] => 0
  | op :: ops' => creates op + created ops'
  end.

Fixpoint deleted (ops : list Op) (st : Notebook) : nat :=
  match ops with
  | [] => 0
  | op :: ops' =>
      deletes op st +
      match apply op st with
      | Some st' => deleted ops' st'
      | None => 0
      end
  end.

(** A drag whose indices the event gives and whose old index is a position
    of the store. *)
Definition in_range (op : Op) (st : Notebook) : Prop :=
  match op with
  | Reorder (Some o) (Some _) => o < length (cells st)
  | _ => True
  end.

Fixpoint all_in_range (ops : list Op) (st : Notebook) : Prop :=
  match ops with
  | [] => True
  | op :: ops' =>
      in_range op st ∧
      match apply op st with
      | Some st' => all_in_range ops' st'
      | None => True
      end
  end.

(** A valid store: no id twice, and every id was made from a value that the
    counter has passed. *)
Definition valid (st : Notebook) : Prop :=
  NoDup (id <$> cells st) ∧
  ∀ c, c ∈ cells st → ∃ n, n < cellCounter st ∧ id c = cell_name n.

End Trace.

(** ** What the parser never produces *)

Module ParserSpec.
Import Parser.

(** A parsed cell as the flushes make it: the text of a text cell is not
    empty, and every output is a log whose text is not empty. *)
Definition data_wf (d : CellData) : bool :=
  match cd_type d with
  | md => truthy (cd_code d)
  | js => true
  end &&
  forallb (λ o, match o with Log text => truthy text | _ => false end)
    (default [] (cd_outputs d)).

(** The cells made so far are all of that shape. *)
Definition wf_state (st : PState) : Prop :=
  Forall (λ d, data_wf d = true) (cellsData st).

End ParserSpec.

(** ** The link to the raw file *)

Module Url.

(** The rest of [s] after the literal [p], when [s] starts with it. *)
Fixpoint strip_prefix (p s : jsstring) : option jsstring :=
  match p, s with
  | [], _ => Some s
  | _ :: _, [] => None
  | a :: p', b :: s' => if N.eqb a b then strip_prefix p' s' else None
  end.

(** The characters of [s] up to its first slash, and what follows that
    slash: how a group of characters other than the slash that a slash
    follows can match at the start of [s]. *)
Fixpoint segment (s : jsstring) : option (jsstring * jsstring) :=
  match s with
  | [] => None
  | c :: s' =>
      if N.eqb c 47 then Some ([], s')
      else match segment s' with
           | Some (seg, rest) => Some (c :: seg, rest)
           | None => None
           end
  end.

(** The line terminators, which the dot of a pattern does not match. *)
Definition isLineTerminator (c : N) : bool :=
  N.eqb c 10 || N.eqb c 13 || N.eqb c 8232 || N.eqb c 8233.

(** [blobToRaw(blobUrl)]; [None] when the pattern does not match and the
    function throws.  The pattern is anchored at both ends: the scheme with
    an optional [s], the host, two groups without slash for the repository,
    [blob], one group without slash for the branch, and a path of one
    character or more, none of them a line terminator. *)
Definition blobToRaw (blobUrl : jsstring) : option jsstring :=
  match strip_prefix (lit "http") blobUrl with
  | None => None
  | Some afterHttp =>
      let afterScheme :=
        match afterHttp with
        | 115%N :: r => r
        | _ => afterHttp
        end in
      match strip_prefix (lit "://github.com/") afterScheme with
      | None => None
      | Some r1 =>
          match segment r1 with
          | None => None
          | Some (owner, r2) =>
              match segment r2 with
              | None => None
              | Some (name, r3) =>
                  match strip_prefix (lit "blob/") r3 with
                  | None => None
                  | Some r4 =>
                      match segment r4 with
                      | None => None
                      | Some (branch, filePath) =>
                          if truthy owner && truthy name && truthy branch &&
                             truthy filePath &&
                             forallb (λ c, negb (isLineTerminator c)) filePath
                          then
                            Some (lit "https://raw.githubusercontent.com/" ++
                                  (owner ++ lit "/" ++ name) ++ lit "/" ++
                                  branch ++ lit "/" ++ filePath)
                          else None
                      end
                  end
              end
          end
      end
  end.

End Url.

(** ** Insertion at the focus, and loading *)

Module Loader.
Import Parser Store.

(** [insertCellAbove(type)]; a focused cell that [findIndex] does not find
    gives the index [-1], with which [splice] inserts before the last
    cell. *)
Definition insertCellAbove (ty : CellType) (st : Notebook) : Notebook :=
  let '(focusedCell, st1) := getFocusedCell st in
  let insertIndex :=
    match focusedCell with
    | Some fc =>
        match findIndex (id fc) (cells st1) with
        | Some focusedIndex => focusedIndex
        | None => Nat.pred (length (cells st1))
        end
    | None => O
    end in
  addCell [] ty false [] (Some insertIndex) st1.

(** [insertCellBelow(type)] *)
Definition insertCellBelow (ty : CellType) (st : Notebook) : Notebook :=
  let '(focusedCell, st1) := getFocusedCell st in
  let insertIndex :=
    match focusedCell with
    | Some fc =>
        match findIndex (id fc) (cells st1) with
        | Some focusedIndex => S focusedIndex
        | None => O
        end
    | None => length (cells st1)
    end in
  addCell [] ty false [] (Some insertIndex) st1.

(** The call of [addCell] for one parsed cell. *)
Definition addParsed (st : Notebook) (cellData : CellData) : Notebook :=
  addCell (cd_code cellData) (cd_type cellData)
    (bool_decide (cd_mode cellData = Some render))
    (default [] (cd_outputs cellData)) None st.

(** The loading of the notebook at start: [response] is the text that was
    fetched, [None] when the fetch failed or its response was not ok, in
    which case the handler of the exception adds one empty code cell. *)
Definition loadNotebook (response : option jsstring) (st : Notebook) : Notebook :=
  match response with
  | None => addCell [] js false [] None st
  | Some text =>
      match parseNotebookFile text with
      | [] => addCell [] js false [] None st
      | cellsData => fold_left addParsed cellsData st
      end
  end.

End Loader.

(** ** Running every cell, and the pending timers *)

Module RunAll.
Import Store Staleness Engine.

Section WithRuntime.

Context {value : Type}.
Variable AsyncFunction : jsstring → jsstring + Script value.




Definition set_timeouts (t : list jsstring) (st : Notebook) : Notebook :=
  mkNotebook (cellCounter st) (cells st) (monacoInstances st)
    (cellClipboard st) (focusedCellId st) (attached st) t.

(** The pending timers fire in the order in which they were set, each
    calling [runCell(cellId)]; what one of them throws does not stop the
    others. *)
Definition fireTimeouts (st : Notebook) (persistentScope : Scope value)
    : Notebook * Scope value :=
  fold_left
    (λ acc cellId, let '(_, st', scope') := runCell AsyncFunction cellId (fst acc) (snd acc) in
                   (st', scope'))
    (timeouts st) (set_timeouts [] st, persistentScope).



End WithRuntime.

End RunAll.

(** ** Example documents, stores and runtime *)

Module Examples.
Import Parser Serializer Store Staleness Engine.

(** A code cell with two log outputs, with the text of its editor. *)
Definition two_logs : list (Cell * jsstring) :=
  [(mkCell (cell_name 0) js None [Log (lit "a"); Log (lit "b")] (Some true) None None,
    lit "x")].

(** A code cell with one output and a rendered text cell. *)
Definition small_doc : list (Cell * jsstring) :=
  [(mkCell (cell_name 0) js None [Log (lit "2")] (Some true) (Some true) (Some (lit "console.log(1+1)")),
    lit "console.log(1+1)");
   (mkCell (cell_name 1) md (Some render) [] (Some true) None None,
    lit "# Title" ++ [LF] ++ lit "some text")].

(** A code block whose only line is one space. *)
Definition blank_code_block : jsstring :=
  CODE_STARTS ++ [LF] ++ lit " " ++ [LF] ++ CODE_ENDS.

(** A store with one empty code cell, and one with two. *)
Definition one_cell : Notebook := addCell [] js false [] None empty_notebook.
Definition two_cells : Notebook := addCell [] js false [] None one_cell.

(** The first of two cells gains the focus and is then deleted. *)
Definition stale_focus : Notebook :=
  snd (deleteCell (cell_name 0) (onDidFocusEditorText (cell_name 0) two_cells)).

(** A fragment of a runtime whose values are numbers, for the texts
    below, on a scope that can be extended and inherits from
    [Object.prototype] only; the empty text compiles to a script that does
    nothing, and so does every text that the fragment does not know. *)
Definition store_text : jsstring := lit "persistentScope.x = 1".
Definition read_text : jsstring := lit "console.log(persistentScope.x)".
Definition broken_text : jsstring := lit "(".
Definition throwing_text : jsstring :=
  lit "} finally { throw new Error('boom') } try {".

Definition report (o : option N) : list ConsoleCall :=
  match o with
  | Some n => [ConsoleLog (lit (pretty n))]
  | None => [ConsoleLog (lit "undefined")]
  end.

Definition runtime (body : jsstring) : jsstring + Script N :=
  if bool_decide (body = fn_body store_text) then inr (storing (lit "x") 1%N)
  else if bool_decide (body = fn_body read_text) then inr (reading (lit "x") report)
  else if bool_decide (body = fn_body broken_text)
       then inl (lit "Unexpected token '}'")
  else if bool_decide (body = fn_body throwing_text)
       then inr (λ scope, mkRun [] scope (Rejected (lit "boom")) false)
  else inr (λ scope, mkRun [] scope Fulfilled false).


(** A store with one code cell whose text does not compile, and one whose
    script is rejected. *)
Definition broken_cell : Notebook := addCell broken_text js false [] None empty_notebook.
Definition throwing_cell : Notebook := addCell throwing_text js false [] None empty_notebook.

(** A store with one code cell that has run and one rendered text cell. *)
Definition executed_doc : Notebook :=
  mkNotebook 2
    [mkCell (cell_name 0) js None [Log (lit "2")] (Some true) (Some true) (Some (lit "console.log(1+1)"));
     mkCell (cell_name 1) md (Some render) [] (Some true) None None]
    [(cell_name 0, mkEditor (lit "console.log(1+1)") false);
     (cell_name 1, mkEditor (lit "# Title") false)]
    None None {[cell_name 0; cell_name 1]} [].

End Examples.

(** ** Further vocabulary *)

Module Shapes.
Import Parser Store.

(** The shape of a parsed cell: its text is what [trim] leaves of it; a
    text cell has a mode and no [outputs], a code cell has [outputs] and no
    mode. *)
Definition data_shape (d : CellData) : Prop :=
  trim (cd_code d) = cd_code d ∧
  match cd_type d with
  | md => is_Some (cd_mode d) ∧ cd_outputs d = None
  | js => cd_mode d = None ∧ is_Some (cd_outputs d)
  end.

(** A character that would end a tag or an attribute value. *)
Definition html_delimiter (c : N) : bool :=
  N.eqb c 60 || N.eqb c 62 || N.eqb c DQUOTE || N.eqb c 39.

(** The cells parsed so far all have that shape. *)
Definition shape_state (st : PState) : Prop := Forall data_shape (cellsData st).

End Shapes.

Module Frames.


End Frames.

Module NewCell.
Import Store.

(** The record [newCellData] that [addCell] puts into [cells]. *)
Definition newCellData (cellId : jsstring) (ty : CellType) (preRender : bool)
    (outs : list Output) : Cell :=
  mkCell cellId ty
    (match ty with md => Some edit | js => None end)
    outs
    (Some (match ty with
           | js => negb (Nat.eqb (length outs) 0)
           | md => preRender
           end))
    None None.

(** What [addCell] is called with for a parsed cell when the counter is at
    [n]. *)
Definition loaded_cell (n : nat) (d : Parser.CellData) : Cell :=
  newCellData (cell_name n) (Parser.cd_type d)
    (bool_decide (Parser.cd_mode d = Some render))
    (default [] (Parser.cd_outputs d)).

(** The timer that [addCell] sets for a parsed cell when the counter is at
    [n]. *)
Definition loaded_timer (n : nat) (d : Parser.CellData) : list jsstring :=
  match Parser.cd_type d with
  | md => if bool_decide (Parser.cd_mode d = Some render) then [cell_name n] else []
  | js => []
  end.

End NewCell.

(** ** Further example stores *)

Module MoreExamples.
Import Parser Store Engine Examples.

(** The two cells of [two_cells]. *)
Definition first_cell : Cell := mkCell (cell_name 0) js None [] (Some false) None None.
Definition second_cell : Cell := mkCell (cell_name 1) js None [] (Some false) None None.

(** A store with one text cell in edit mode. *)
Definition text_cell : Notebook := addCell (lit "# Title") md false [] None empty_notebook.


(** The address of a file on a branch of a repository. *)
Definition blob_address : jsstring :=
  lit "https://github.com/owner/repo/blob/main/examples/notebook.ts".












End MoreExamples.

(** * Theorems *)

(** ** Strings *)

Module JsStringFacts.

Lemma split_lines_nonempty s : split_lines s ≠ [].
Proof. destruct s as [|c s]; simpl; [done|]. destruct (N.eqb c LF); [done|]. by destruct (split_lines s). Qed.

Lemma split_lines_app a b :
  split_lines (a ++ LF :: b) = split_lines a ++ split_lines b.
Proof.
  induction a as [|c a IH]; simpl; [done|].
  destruct (N.eqb c LF); [by rewrite IH|].
  rewrite IH. pose proof (split_lines_nonempty a) as Hne.
  by destruct (split_lines a).
Qed.

Lemma join_split_lines s : join_lines (split_lines s) = s.
Proof.
  induction s as [|c s IH]; simpl; [done|].
  destruct (N.eqb_spec c LF) as [->|Hc].
  - pose proof (split_lines_nonempty s) as Hne.
    destruct (split_lines s) eqn:E; [done|]. simpl in *; congruence.
  - pose proof (split_lines_nonempty s) as Hne.
    destruct (split_lines s) as [|l ls] eqn:E; [done|].
    destruct ls; simpl in *; congruence.
Qed.

Lemma split_lines_no_lf s : LF ∉ s → split_lines s = [s].
Proof.
  induction s as [|c s IH]; intros Hs; simpl; [done|].
  destruct (N.eqb_spec c LF) as [->|Hc]; [set_solver|].
  rewrite IH; [done|set_solver].
Qed.

Lemma split_lines_lf_free s : Forall (λ l, LF ∉ l) (split_lines s).
Proof.
  induction s as [|c s IH]; simpl.
  - constructor; [apply not_elem_of_nil|constructor].
  - destruct (N.eqb_spec c LF) as [->|Hc].
    + constructor; [apply not_elem_of_nil|done].
    + pose proof (split_lines_nonempty s) as Hne.
      destruct (split_lines s) as [|l ls]; [done|].
      apply Forall_cons in IH as [Hl Hls]. constructor; [|done].
      intros [?|?]%elem_of_cons; [congruence|done].
Qed.

Lemma trimEnd_ws w : forallb isWhiteSpace w = true → trimEnd w = [].
Proof.
  induction w as [|c w IH]; simpl; [done|].
  intros [Hc Hw]%andb_true_iff. by rewrite IH, Hc.
Qed.

Lemma trimEnd_app_ws s w : forallb isWhiteSpace w = true → trimEnd (s ++ w) = trimEnd s.
Proof.
  intros Hw. induction s as [|c s IH]; simpl; [by apply trimEnd_ws|by rewrite IH].
Qed.

Lemma trimEnd_snoc s c : isWhiteSpace c = false → trimEnd (s ++ [c]) = s ++ [c].
Proof.
  intros Hc. induction s as [|d s IH]; simpl; [by rewrite Hc|].
  rewrite IH. by destruct s.
Qed.

Lemma trimStart_length s : length (trimStart s) ≤ length s.
Proof. induction s as [|c s IH]; simpl; [done|]. destruct (isWhiteSpace c); simpl; lia. Qed.

Lemma trimEnd_length s : length (trimEnd s) ≤ length s.
Proof.
  induction s as [|c s IH]; simpl; [done|].
  destruct (trimEnd s); [destruct (isWhiteSpace c)|]; simpl in *; lia.
Qed.

Lemma trim_fixed_head s c : trim (c :: s) = c :: s → isWhiteSpace c = false.
Proof.
  unfold trim. simpl. destruct (isWhiteSpace c) eqn:Hc; [|done].
  intros H. pose proof (trimEnd_length (trimStart s)). pose proof (trimStart_length s).
  rewrite H in *. simpl in *. lia.
Qed.

Lemma trim_head_nonws c s : isWhiteSpace c = false → trim (c :: s) = trimEnd (c :: s).
Proof. intros Hc. unfold trim. cbn [trimStart]. by rewrite Hc. Qed.

End JsStringFacts.

(** ** Parser and serializer *)

Module ParserFacts.
Import Parser Serializer RoundTrip JsStringFacts.

Lemma step_CODE_STARTS st :
  step st CODE_STARTS = set_flags true false false (addOutput (addMdCell st)).
Proof. reflexivity. Qed.

Lemma step_CODE_ENDS st :
  step st CODE_ENDS =
  set_flags false (inMdBlock (addJsCell st)) (inOutputBlock (addJsCell st)) (addJsCell st).
Proof. reflexivity. Qed.

Lemma step_OUTPUT st :
  step st (lit "/* Output Sample") =
  set_flags false false true (addMdCell (addJsCell st)).
Proof. reflexivity. Qed.

Lemma step_CLOSE st :
  step st CLOSE =
  set_flags
    (inCodeBlock (if inMdBlock st then addMdCell st
                  else if inOutputBlock st then addOutput st else st))
    false false
    (if inMdBlock st then addMdCell st
     else if inOutputBlock st then addOutput st else st).
Proof. reflexivity. Qed.

(** A line that is no marker is accumulated by the open block, or dropped. *)
Lemma step_plain st line :
  plain_line line = true →
  step st line =
  if inCodeBlock st then set_jsCodeLines (jsCodeLines st ++ [line]) st
  else if inMdBlock st then set_mdContent (append_line (mdContent st) line) st
  else if inOutputBlock st then set_outputContent (append_line (outputContent st) line) st
  else st.
Proof.
  unfold plain_line, step. cbv zeta.
  rewrite !andb_true_iff, !negb_true_iff.
  intros [[[[-> ->] ->] ->] ->]. reflexivity.
Qed.

Lemma plain_blank : plain_line [] = true.
Proof. reflexivity. Qed.

Lemma step_blank_clean acc m : step (clean acc m) [] = clean acc m.
Proof. reflexivity. Qed.

Lemma finish_clean acc m : finish (clean acc m) = clean acc m.
Proof. reflexivity. Qed.

Lemma fold_plain_code acc L c o m ls :
  Forall (λ l, plain_line l = true) ls →
  fold_left step ls (mkPState acc L c o true false false m) =
  mkPState acc (L ++ ls) c o true false false m.
Proof.
  intros H. revert L. induction H as [|l ls Hl _ IH]; intros L; simpl.
  - by rewrite app_nil_r.
  - rewrite (step_plain _ _ Hl). simpl. unfold set_jsCodeLines. simpl.
    rewrite IH. by rewrite <- app_assoc.
Qed.

Lemma fold_plain_md acc L c o m ls :
  Forall (λ l, plain_line l = true) ls →
  fold_left step ls (mkPState acc L c o false true false m) =
  mkPState acc L (fold_left append_line ls c) o false true false m.
Proof.
  intros H. revert c. induction H as [|l ls Hl _ IH]; intros c; simpl; [done|].
  rewrite (step_plain _ _ Hl). simpl. unfold set_mdContent. simpl. by rewrite IH.
Qed.

Lemma fold_plain_out acc L c o m ls :
  Forall (λ l, plain_line l = true) ls →
  fold_left step ls (mkPState acc L c o false false true m) =
  mkPState acc L c (fold_left append_line ls o) false false true m.
Proof.
  intros H. revert o. induction H as [|l ls Hl _ IH]; intros o; simpl; [done|].
  rewrite (step_plain _ _ Hl). simpl. unfold set_outputContent. simpl. by rewrite IH.
Qed.

Lemma join_lines_cons l ls : join_lines (l :: ls) = l ++ flat_map (cons LF) ls.
Proof.
  revert l. induction ls as [|l' ls IH]; intros l; [by rewrite app_nil_r|].
  change (join_lines (l :: l' :: ls)) with (l ++ LF :: join_lines (l' :: ls)).
  by rewrite IH.
Qed.

Lemma fold_append_line a ls :
  truthy a = true →
  fold_left append_line ls a = a ++ flat_map (cons LF) ls.
Proof.
  revert a. induction ls as [|l ls IH]; intros a Ha; simpl; [by rewrite app_nil_r|].
  unfold append_line at 2. rewrite Ha. rewrite IH.
  - by rewrite <- !app_assoc.
  - by destruct a.
Qed.

(** Accumulating the lines of a text that starts with a character other
    than white space rebuilds the text. *)
Lemma fold_append_split c s :
  isWhiteSpace c = false →
  fold_left append_line (split_lines (c :: s)) [] = c :: s.
Proof.
  intros Hc.
  pose proof (join_split_lines (c :: s)) as Hj.
  assert (N.eqb c LF = false) as Hlf.
  { destruct (N.eqb_spec c LF) as [->|]; [done|done]. }
  simpl in *. rewrite Hlf in *.
  pose proof (split_lines_nonempty s) as Hne.
  destruct (split_lines s) as [|l ls]; [done|].
  cbn [fold_left]. unfold append_line at 2. cbn [truthy app].
  rewrite fold_append_line by done.
  by rewrite <- join_lines_cons.
Qed.

Lemma text_ok_trim s : text_ok s = true → trim s = s.
Proof.
  unfold text_ok, str_eqb. intros [H _]%andb_true_iff. by apply bool_decide_eq_true in H.
Qed.

Lemma text_ok_plain s : text_ok s = true → Forall (λ l, plain_line l = true) (split_lines s).
Proof.
  unfold text_ok, marker_free. intros [_ H]%andb_true_iff.
  apply Forall_forall. intros l Hl. rewrite forallb_forall in H.
  by apply H, list_elem_of_In.
Qed.

Lemma escape_id d : forallb (λ c, negb (html_special c)) d = true → escapeHtml d = d.
Proof.
  induction d as [|c d IH]; simpl; [done|].
  intros [Hc Hd]%andb_true_iff. rewrite (IH Hd).
  unfold html_special in Hc. unfold escapeMap.
  apply negb_true_iff in Hc. rewrite !orb_false_iff in Hc.
  destruct Hc as [[[[-> ->] ->] ->] ->]. done.
Qed.

Lemma trim_snoc_lf d : truthy d = true → trim d = d → trim (d ++ [LF]) = d.
Proof.
  destruct d as [|c d]; [done|]. intros _ H.
  pose proof (trim_fixed_head _ _ H) as Hc.
  rewrite trim_head_nonws in H by done.
  change ((c :: d) ++ [LF]) with (c :: (d ++ [LF])).
  rewrite trim_head_nonws by done.
  change (c :: (d ++ [LF])) with ((c :: d) ++ [LF]).
  by rewrite trimEnd_app_ws.
Qed.

Lemma block_md acc m c code :
  type c = md → cell_ok (c, code) = true →
  ∃ m', fold_left step (cell_lines (c, code)) (clean acc m) =
        clean (acc ++ [data_of (c, code)]) m'.
Proof.
  intros Hty H. unfold cell_ok, cell_lines, data_of in *. cbn [fst snd] in *.
  rewrite Hty in *.
  rewrite !andb_true_iff in H. destruct H as [[[Hne Hok] Hmode] Houts].
  apply bool_decide_eq_true in Hmode as [mo Hmode].
  pose proof (text_ok_trim _ Hok) as Htrim.
  pose proof (text_ok_plain _ Hok) as Hplain.
  destruct code as [|ch code]; [done|].
  pose proof (trim_fixed_head _ _ Htrim) as Hch.
  exists mo. rewrite Hmode.
  rewrite !fold_left_app.
  assert (fold_left step
            [if bool_decide (Some mo = Some render)
             then lit "/* Markdown (render)" else lit "/* Markdown"] (clean acc m)
          = mkPState acc [] [] [] false true false mo) as ->.
  { destruct mo; reflexivity. }
  rewrite fold_plain_md by done.
  rewrite fold_append_split by done.
  cbn [fold_left]. rewrite step_CLOSE. cbn [inMdBlock].
  unfold addMdCell. cbn [mdContent]. rewrite Htrim. reflexivity.
Qed.

Lemma push_last_js_snoc o acc c :
  cd_type c = js → push_last_js o (acc ++ [c]) = acc ++ [push_output o c].
Proof.
  intros Hc. unfold push_last_js. rewrite rev_app_distr. simpl. rewrite Hc.
  simpl. by rewrite rev_involutive.
Qed.

Lemma block_js_code acc m code :
  text_ok code = true →
  fold_left step ([CODE_STARTS] ++ split_lines code ++ [CODE_ENDS]) (clean acc m) =
  clean (acc ++ [mkCellData js code None (Some [])]) m.
Proof.
  intros Hok.
  pose proof (text_ok_trim _ Hok) as Htrim.
  pose proof (text_ok_plain _ Hok) as Hplain.
  rewrite !fold_left_app. cbn [fold_left]. rewrite step_CODE_STARTS.
  change (set_flags true false false (addOutput (addMdCell (clean acc m))))
    with (mkPState acc [] [] [] true false false m).
  rewrite fold_plain_code by done. rewrite step_CODE_ENDS.
  unfold addJsCell. cbn [jsCodeLines app].
  pose proof (split_lines_nonempty code) as Hne.
  pose proof (join_split_lines code) as Hj.
  destruct (split_lines code) as [|l ls]; [done|].
  rewrite Hj, Htrim. reflexivity.
Qed.

Lemma block_js_output acc m c d :
  cd_type c = js →
  output_ok (Log d) = true →
  fold_left step
    ([[]; lit "/* Output Sample"; []] ++ (split_lines (outputText (Log d)) ++ [[]]) ++ [CLOSE])
    (clean (acc ++ [c]) m) =
  clean (acc ++ [push_output (Log d) c]) m.
Proof.
  intros Hc Hd. unfold output_ok in Hd.
  rewrite !andb_true_iff in Hd. destruct Hd as [[Hne Hok] Hesc].
  pose proof (text_ok_trim _ Hok) as Htrim.
  pose proof (text_ok_plain _ Hok) as Hplain.
  cbn [outputText]. rewrite (escape_id _ Hesc).
  destruct d as [|ch d]; [done|].
  pose proof (trim_fixed_head _ _ Htrim) as Hch.
  cbn [app fold_left]. rewrite step_blank_clean, step_OUTPUT.
  change (set_flags false false true (addMdCell (addJsCell (clean (acc ++ [c]) m))))
    with (mkPState (acc ++ [c]) [] [] [] false false true m).
  rewrite (step_plain _ _ plain_blank). cbn [inCodeBlock inMdBlock inOutputBlock].
  change (set_outputContent _ _) with (mkPState (acc ++ [c]) [] [] [] false false true m).
  rewrite !fold_left_app.
  rewrite fold_plain_out by done.
  rewrite fold_append_split by done.
  cbn [fold_left]. rewrite (step_plain _ _ plain_blank).
  cbn [inCodeBlock inMdBlock inOutputBlock outputContent].
  rewrite step_CLOSE.
  unfold set_outputContent, append_line. cbn [inMdBlock inOutputBlock truthy cellsData jsCodeLines mdContent inCodeBlock mdMode].
  unfold addOutput. cbn [outputContent cellsData].
  rewrite app_nil_r.
  rewrite (trim_snoc_lf (ch :: d)) by done.
  rewrite length_app. cbn [length truthy].
  replace (Nat.eqb (length acc + 1) 0) with false by (symmetry; apply Nat.eqb_neq; lia).
  cbn [andb negb]. rewrite push_last_js_snoc by done. reflexivity.
Qed.

Lemma block acc m p :
  cell_ok p = true →
  ∃ m', fold_left step (cell_lines p) (clean acc m) = clean (acc ++ [data_of p]) m'.
Proof.
  destruct p as [c code]. destruct (type c) eqn:Hty; [|by apply block_md].
  intros H. unfold cell_ok, cell_lines, data_of in *. cbn [fst snd] in *.
  rewrite Hty in *. rewrite !andb_true_iff in H. destruct H as [[Hok Hmode] Houts].
  exists m. rewrite (app_assoc (split_lines code)), (app_assoc [CODE_STARTS]).
  rewrite fold_left_app, block_js_code by done.
  destruct (outputs c) as [|o [|o' outs]]; [done| |done].
  destruct o as [d| | |]; [|done|done|done].
  cbn [flat_map]. rewrite app_nil_r.
  by rewrite block_js_output.
Qed.

Lemma fold_blocks doc acc m :
  Forall (λ p, cell_ok p = true) doc →
  ∃ m', fold_left step (flat_map (λ p, cell_lines p ++ [[]]) doc) (clean acc m) =
        clean (acc ++ (data_of <$> doc)) m'.
Proof.
  intros H. revert acc m. induction H as [|p doc Hp _ IH]; intros acc m.
  - exists m. by rewrite app_nil_r.
  - cbn [flat_map]. rewrite !fold_left_app.
    destruct (block acc m p Hp) as [m1 ->].
    cbn [fold_left]. rewrite step_blank_clean.
    destruct (IH (acc ++ [data_of p]) m1) as [m2 ->].
    exists m2. by rewrite <- app_assoc.
Qed.

Lemma unlines_app a b : unlines (a ++ b) = unlines a ++ unlines b.
Proof. unfold unlines. by rewrite flat_map_app. Qed.

Lemma unlines_split s : unlines (split_lines s) = s ++ [LF].
Proof.
  induction s as [|c s IH]; [done|]. cbn [split_lines].
  destruct (N.eqb_spec c LF) as [->|Hc].
  - change (unlines ([] :: split_lines s)) with (LF :: unlines (split_lines s)).
    by rewrite IH.
  - pose proof (split_lines_nonempty s) as Hne.
    destruct (split_lines s) as [|l ls]; [done|].
    change (unlines ((c :: l) :: ls)) with (c :: unlines (l :: ls)).
    by rewrite IH.
Qed.

Lemma split_unlines ls rest :
  Forall (λ l, LF ∉ l) ls →
  split_lines (unlines ls ++ rest) = ls ++ split_lines rest.
Proof.
  induction 1 as [|l ls Hl _ IH]; [done|].
  change (unlines (l :: ls)) with ((l ++ [LF]) ++ unlines ls).
  rewrite <- !app_assoc. cbn [app]. rewrite split_lines_app, IH.
  by rewrite split_lines_no_lf.
Qed.

Lemma serializeOutputs_lines outs :
  flat_map serializeOutput outs =
  unlines (flat_map (λ o, split_lines (outputText o) ++ [[]]) outs).
Proof.
  induction outs as [|o outs IH]; [done|].
  cbn [flat_map]. rewrite !unlines_app, unlines_split, <- IH.
  unfold serializeOutput, NL. by rewrite <- !app_assoc.
Qed.

Lemma serializeCell_lines p :
  serializeCell (fst p) (snd p) = unlines (cell_lines p ++ [[]]).
Proof.
  destruct p as [c code]. unfold serializeCell, cell_lines, NL. cbn [fst snd].
  destruct (type c).
  - destruct (outputs c) as [|o outs] eqn:Ho.
    + rewrite !unlines_app, unlines_split. rewrite <- !app_assoc. reflexivity.
    + rewrite <- Ho. rewrite !unlines_app, unlines_split, <- serializeOutputs_lines.
      rewrite <- !app_assoc. reflexivity.
  - rewrite !unlines_app, unlines_split. rewrite <- !app_assoc.
    destruct (bool_decide _); reflexivity.
Qed.

Lemma content_lines doc :
  flat_map (λ p, serializeCell (fst p) (snd p)) doc =
  unlines (flat_map (λ p, cell_lines p ++ [[]]) doc).
Proof.
  induction doc as [|p doc IH]; [done|].
  cbn [flat_map]. by rewrite unlines_app, IH, serializeCell_lines.
Qed.

Lemma lit_lf_free_dec (l : jsstring) : bool_decide (LF ∉ l) = true → LF ∉ l.
Proof. apply bool_decide_eq_true. Qed.

Lemma cell_lines_lf_free p : Forall (λ l, LF ∉ l) (cell_lines p).
Proof.
  destruct p as [c code]. unfold cell_lines. cbn [fst snd].
  assert (∀ outs, Forall (λ l, LF ∉ l)
            (flat_map (λ o, split_lines (outputText o) ++ [[]]) outs)) as Houts.
  { induction outs as [|o outs IH]; [constructor|].
    cbn [flat_map]. rewrite !Forall_app. split_and!; [apply split_lines_lf_free| |done].
    repeat constructor. apply not_elem_of_nil. }
  destruct (type c).
  - rewrite !Forall_app. split_and!.
    + repeat constructor. by apply lit_lf_free_dec.
    + apply split_lines_lf_free.
    + repeat constructor. by apply lit_lf_free_dec.
    + destruct (outputs c) as [|o outs] eqn:Ho; [constructor|]. rewrite <- Ho.
      rewrite !Forall_app. split_and!; [|apply Houts|].
      * repeat constructor; by apply lit_lf_free_dec.
      * repeat constructor; by apply lit_lf_free_dec.
  - rewrite !Forall_app. split_and!.
    + repeat constructor. destruct (bool_decide _); by apply lit_lf_free_dec.
    + apply split_lines_lf_free.
    + repeat constructor. by apply lit_lf_free_dec.
Qed.

Lemma cell_lines_last p :
  ∃ M X, cell_lines p = M ++ [X] ∧ (X = CLOSE ∨ X = CODE_ENDS).
Proof.
  destruct p as [c code]. unfold cell_lines. cbn [fst snd]. destruct (type c).
  - destruct (outputs c) as [|o outs] eqn:Ho.
    + exists ([CODE_STARTS] ++ split_lines code), CODE_ENDS.
      split; [by rewrite app_nil_r, <- !app_assoc|by right].
    + rewrite <- Ho. eexists _, CLOSE. split; [|by left].
      rewrite !app_assoc. reflexivity.
  - eexists _, CLOSE. split; [|by left]. by rewrite !app_assoc.
Qed.

Lemma content_head doc :
  doc ≠ [] → ∃ tl, flat_map (λ p, serializeCell (fst p) (snd p)) doc = 47%N :: tl.
Proof.
  destruct doc as [|[c code] doc]; [done|]. intros _.
  cbn [flat_map fst snd]. unfold serializeCell. destruct (type c).
  - eexists. reflexivity.
  - destruct (bool_decide _); eexists; reflexivity.
Qed.

Lemma view_data_of p : cell_ok p = true → view_of_data (data_of p) = view_of_cell p.
Proof.
  destruct p as [c code]. unfold cell_ok, view_of_data, data_of, view_of_cell.
  cbn [fst snd]. destruct (type c) eqn:Hty; cbn.
  - rewrite !andb_true_iff. intros [[_ Hm%bool_decide_eq_true] _]. by rewrite Hm.
  - rewrite !andb_true_iff. intros [_ Ho%bool_decide_eq_true]. by rewrite Ho.
Qed.

Lemma cell_ok_data_is_string doc :
  Forall (λ p, cell_ok p = true) doc →
  forallb (λ p : Cell * jsstring,
             match type (fst p) with
             | md => true
             | js => forallb data_is_string (outputs (fst p))
             end) doc = true.
Proof.
  induction 1 as [|p doc Hp _ IH]; [done|]. cbn [forallb]. rewrite IH, andb_true_r.
  unfold cell_ok in Hp. destruct (type (fst p)); [|done].
  rewrite !andb_true_iff in Hp. destruct Hp as [_ Ho].
  destruct (outputs (fst p)) as [|o [|o' outs]]; [done| |done].
  by destruct o.
Qed.

(** C1, as amended.  Let every text be what [trim] leaves of it and have no
    line that the parser takes for a marker; let every text cell have a mode,
    no output and a text that is not empty; let every code cell have no mode
    and either no output or one log output whose text is not empty, is
    trimmed, is free of markers and holds none of the characters that the
    serializer escapes.  Then parsing the serialized document gives back the
    kind, text, mode and outputs of every cell, in order; so does parsing
    the blob that [downloadNotebook] makes of a store with these cells and
    texts. *)
Theorem parse_serialize_roundtrip doc :
  Forall (λ p, cell_ok p = true) doc →
  view_of_data <$> parseNotebookFile (serialize doc) = view_of_cell <$> doc ∧
  ∀ st, Store.document st = Some doc →
        (λ content, view_of_data <$> parseNotebookFile content) <$> Store.downloadNotebook st =
        Some (view_of_cell <$> doc).
Proof.
  intros Hok.
  assert (view_of_data <$> parseNotebookFile (serialize doc) = view_of_cell <$> doc) as Hmain;
    [|split; [exact Hmain|];
      intros st Hdoc; unfold Store.downloadNotebook; rewrite Hdoc;
      rewrite (cell_ok_data_is_string doc Hok);
      cbn [fmap option_fmap option_map]; by rewrite Hmain].
  destruct (decide (doc = [])) as [->|Hne]; [reflexivity|].
  destruct (content_head doc Hne) as [tl Hhead].
  destruct (exists_last Hne) as (doc' & p & ->).
  apply Forall_app in Hok as [Hok' Hp]. rewrite Forall_singleton in Hp.
  destruct (cell_lines_last p) as (M & X & HM & HX).
  pose proof (cell_lines_lf_free p) as Hlf. rewrite HM in Hlf.
  apply Forall_app in Hlf as [HlfM HlfX]. rewrite Forall_singleton in HlfX.
  assert (∃ X' c, X = X' ++ [c] ∧ isWhiteSpace c = false) as (X' & c & HX' & Hc).
  { destruct HX as [->| ->].
    - by exists [42%N], 47%N.
    - eexists (removelast CODE_ENDS), 93%N. by split. }
  set (A := flat_map (λ p, cell_lines p ++ [[]]) doc').
  assert (Forall (λ l : jsstring, LF ∉ l) A) as HlfA.
  { subst A. clear. induction doc' as [|q doc' IH]; [constructor|].
    cbn [flat_map]. rewrite !Forall_app. split_and!; [apply cell_lines_lf_free| |done].
    repeat constructor. apply not_elem_of_nil. }
  unfold parseNotebookFile, serialize.
  assert (trim (flat_map (λ p, serializeCell (fst p) (snd p)) (doc' ++ [p])) =
          unlines (A ++ M) ++ X) as ->.
  { rewrite Hhead, trim_head_nonws by done. rewrite <- Hhead.
    rewrite content_lines, flat_map_app. cbn [flat_map]. rewrite app_nil_r.
    fold A. rewrite HM. rewrite !unlines_app.
    change (unlines [X]) with ((X ++ [LF]) ++ []).
    change (unlines [[]]) with [LF].
    rewrite !app_nil_r.
    replace ((unlines A ++ (unlines M ++ X ++ [LF]) ++ [LF]))
      with ((unlines A ++ unlines M ++ X' ++ [c]) ++ [LF; LF]).
    2:{ rewrite HX', <- !app_assoc. reflexivity. }
    rewrite trimEnd_app_ws by done.
    rewrite !app_assoc. rewrite trimEnd_snoc by done.
    rewrite HX', <- !app_assoc. reflexivity. }
  rewrite split_unlines by (apply Forall_app; by split).
  rewrite split_lines_no_lf by done.
  rewrite <- app_assoc, <- HM, fold_left_app.
  destruct (fold_blocks doc' [] edit Hok') as [m1 Hfold].
  change init with (clean [] edit). fold A in Hfold. rewrite Hfold.
  destruct (block ([] ++ (data_of <$> doc')) m1 p Hp) as [m2 ->].
  rewrite finish_clean. unfold clean. cbn [cellsData app].
  rewrite !fmap_app, !list_fmap_singleton, (view_data_of p Hp). f_equal.
  clear -Hok'. induction Hok' as [|q doc' Hq _ IH]; [done|].
  rewrite !fmap_cons, (view_data_of q Hq). f_equal. exact IH.
Qed.

End ParserFacts.

Module RoundTripFacts.
Import Parser Serializer RoundTrip JsStringFacts ParserFacts Examples.

(** C1 as the specification words it fails on a code cell with two log
    outputs: no text of it collides with a marker, and it comes back with
    one output that joins the two. *)
Lemma two_logs_not_reproduced :
  forallb collision_free two_logs = true ∧
  view_of_data <$> parseNotebookFile (serialize two_logs) ≠ view_of_cell <$> two_logs.
Proof. split; [by vm_compute|]. vm_compute. intros H. discriminate H. Qed.

(** The round trip of a code cell with one output followed by a rendered
    text cell. *)
Lemma roundtrip_small_doc :
  Forall (λ p, cell_ok p = true) small_doc ∧
  view_of_data <$> parseNotebookFile (serialize small_doc) = view_of_cell <$> small_doc.
Proof.
  assert (Forall (λ p, cell_ok p = true) small_doc) as H.
  { repeat constructor. }
  split; [exact H|]. exact (proj1 (parse_serialize_roundtrip small_doc H)).
Defined.

End RoundTripFacts.

Module ParserSpecFacts.
Import Parser ParserSpec Examples.

Lemma push_output_wf text d :
  truthy text = true → data_wf d = true → data_wf (push_output (Log text) d) = true.
Proof.
  unfold data_wf, push_output. simpl.
  intros Ht [H1 H2]%andb_true_iff. rewrite H1. cbn [andb].
  rewrite forallb_app, H2. simpl. by rewrite Ht.
Qed.

Lemma push_first_js_wf text cs :
  truthy text = true →
  Forall (λ d, data_wf d = true) cs →
  Forall (λ d, data_wf d = true) (push_first_js (Log text) cs).
Proof.
  intros Ht. induction 1 as [|d cs Hd Hcs IH]; [constructor|].
  cbn [push_first_js]. destruct (cd_type d); constructor; auto using push_output_wf.
Qed.

Lemma push_last_js_wf text cs :
  truthy text = true →
  Forall (λ d, data_wf d = true) cs →
  Forall (λ d, data_wf d = true) (push_last_js (Log text) cs).
Proof.
  intros Ht H. unfold push_last_js.
  apply Forall_rev, push_first_js_wf; [done|]. by apply Forall_rev.
Qed.

Lemma addJsCell_wf st : wf_state st → wf_state (addJsCell st).
Proof.
  unfold wf_state, addJsCell. intros H. destruct (jsCodeLines st); [done|].
  cbn [cellsData]. apply Forall_app. split; [done|]. by repeat constructor.
Qed.

Lemma addMdCell_wf st : wf_state st → wf_state (addMdCell st).
Proof.
  unfold wf_state, addMdCell. intros H.
  destruct (truthy (trim (mdContent st))) eqn:Ht; [|done].
  cbn [cellsData]. apply Forall_app. split; [done|].
  repeat constructor. unfold data_wf. cbn. by rewrite Ht.
Qed.

Lemma addOutput_wf st : wf_state st → wf_state (addOutput st).
Proof.
  unfold wf_state, addOutput. intros H.
  destruct (truthy (trim (outputContent st))) eqn:Ht; [|done].
  destruct (negb _); [|done]. cbn [andb cellsData]. by apply push_last_js_wf.
Qed.

Lemma step_wf st line : wf_state st → wf_state (step st line).
Proof.
  intros H. unfold step. cbv zeta.
  repeat (case_match; try done);
    unfold wf_state, set_flags, set_mdMode, set_mdContent, set_outputContent, set_jsCodeLines in *;
    cbn [cellsData];
    try (by apply addOutput_wf, addMdCell_wf);
    try (by apply addOutput_wf, addJsCell_wf);
    try (by apply addMdCell_wf, addJsCell_wf);
    try (by apply addJsCell_wf);
    try (by apply addMdCell_wf);
    try (by apply addOutput_wf).
Qed.

Lemma fold_step_wf ls st : wf_state st → wf_state (fold_left step ls st).
Proof. revert st. induction ls as [|l ls IH]; intros st H; [done|]. by apply IH, step_wf. Qed.

(** C7 as the specification words it fails on a code block whose only line
    is a space: what it accumulated is all white space when it is flushed,
    and the flush makes a code cell with the empty text. *)
Lemma blank_code_block_makes_cell :
  let st := fold_left step (split_lines (CODE_STARTS ++ [LF] ++ lit " ")) init in
  jsCodeLines st = [lit " "] ∧
  trim (join_lines (jsCodeLines st)) = [] ∧
  cellsData st = [] ∧
  cellsData (addJsCell st) = [mkCellData js [] None (Some [])] ∧
  parseNotebookFile blank_code_block = [mkCellData js [] None (Some [])].
Proof. by vm_compute. Qed.

(** C7, as amended.  For every input document every text cell that the
    parser produces has a text that is not empty and every output it
    produces is a log whose text is not empty: a pending text or output that
    is empty or all white space is flushed to nothing.  A pending code block
    is flushed to nothing exactly when it has accumulated no line. *)
Theorem flush_blank content st :
  Forall (λ d, data_wf d = true) (parseNotebookFile content) ∧
  (truthy (trim (mdContent st)) = false → addMdCell st = st) ∧
  (truthy (trim (outputContent st)) = false → addOutput st = st) ∧
  (addJsCell st = st ↔ jsCodeLines st = []).
Proof.
  split_and!.
  - unfold parseNotebookFile, finish.
    apply addOutput_wf, addMdCell_wf, addJsCell_wf, fold_step_wf. constructor.
  - unfold addMdCell. by intros ->.
  - unfold addOutput. by intros ->.
  - unfold addJsCell. split.
    + destruct (jsCodeLines st) eqn:E; [done|]. intros H.
      apply (f_equal (λ s, length (cellsData s))) in H. cbn [cellsData] in H.
      rewrite length_app in H. cbn in H. lia.
    + by intros ->.
Qed.

(** The flushes of a text and of an output of two spaces, and of a code
    block without lines. *)
Lemma flush_blank_witness :
  Forall (λ d, data_wf d = true) (parseNotebookFile blank_code_block) ∧
  addMdCell (mkPState [] [] (lit "  ") [] false true false edit) =
    mkPState [] [] (lit "  ") [] false true false edit ∧
  addOutput (mkPState [] [] [] (lit "  ") false false true edit) =
    mkPState [] [] [] (lit "  ") false false true edit ∧
  addJsCell init = init.
Proof.
  split_and!.
  - exact (proj1 (flush_blank blank_code_block init)).
  - exact (proj1 (proj2 (flush_blank [] (mkPState [] [] (lit "  ") [] false true false edit))) eq_refl).
  - exact (proj1 (proj2 (proj2 (flush_blank [] (mkPState [] [] [] (lit "  ") false false true edit)))) eq_refl).
  - exact (proj2 (proj2 (proj2 (proj2 (flush_blank [] init)))) eq_refl).
Defined.

End ParserSpecFacts.

(** ** Cell store *)

Module StoreFacts.
Import Store Examples.

Lemma find_cell_cons i c cs :
  find_cell i (c :: cs) = if decide (id c = i) then Some c else find_cell i cs.
Proof.
  unfold find_cell. cbn [list_find]. destruct (decide (id c = i)); [done|].
  by destruct (list_find _ cs) as [[? ?]|].
Qed.

Lemma update_cell_cons i f c cs :
  update_cell i f (c :: cs) =
  if decide (id c = i) then f c :: cs else c :: update_cell i f cs.
Proof.
  unfold update_cell. cbn [list_find]. destruct (decide (id c = i)); [done|].
  by destruct (list_find _ cs) as [[? ?]|].
Qed.

Lemma find_cell_update i j f cs :
  (∀ c, id (f c) = id c) →
  find_cell j (update_cell i f cs) =
  if decide (i = j) then f <$> find_cell j cs else find_cell j cs.
Proof.
  intros Hf. induction cs as [|c cs IH]; [by destruct (decide (i = j))|].
  rewrite update_cell_cons, find_cell_cons.
  destruct (decide (id c = i)) as [Hi|Hi].
  - rewrite find_cell_cons, Hf.
    destruct (decide (id c = j)), (decide (i = j)); try done; congruence.
  - rewrite find_cell_cons, IH.
    destruct (decide (id c = j)), (decide (i = j)); try done; congruence.
Qed.

Lemma find_cell_update_eq i f cs :
  (∀ c, id (f c) = id c) →
  find_cell i (update_cell i f cs) = f <$> find_cell i cs.
Proof. intros Hf. rewrite find_cell_update by done. by rewrite decide_True. Qed.

Lemma editor_of_cons i k e m :
  editor_of i ((k, e) :: m) = if decide (k = i) then Some e else editor_of i m.
Proof.
  unfold editor_of. cbn [list_find fst]. destruct (decide (k = i)); [done|].
  by destruct (list_find _ m) as [[? [? ?]]|].
Qed.

Lemma editor_set_cons i e k e' m :
  editor_set i e ((k, e') :: m) =
  if decide (k = i) then (i, e) :: m else (k, e') :: editor_set i e m.
Proof.
  unfold editor_set. cbn [list_find fst]. destruct (decide (k = i)); [done|].
  by destruct (list_find _ m) as [[? ?]|].
Qed.

Lemma editor_of_set i e m : editor_of i (editor_set i e m) = Some e.
Proof.
  induction m as [|[k e'] m IH].
  - unfold editor_set. cbn [list_find app]. rewrite editor_of_cons. by rewrite decide_True.
  - rewrite editor_set_cons. destruct (decide (k = i)) as [->|Hk].
    + rewrite editor_of_cons. by rewrite decide_True.
    + rewrite editor_of_cons. by rewrite decide_False.
Qed.


(** *** Deletion *)

Lemma editor_delete_absent i m : editor_of i m = None → editor_delete i m = m.
Proof.
  unfold editor_delete. induction m as [|[k e] m IH]; [done|].
  rewrite editor_of_cons. destruct (decide (k = i)) as [|Hne]; [done|].
  intros H. rewrite filter_cons_True by done. by rewrite IH.
Qed.

(** The store after [deleteCell], whether it returned or threw. *)
Lemma deleteCell_state cellId st :
  snd (deleteCell cellId st) =
  mkNotebook
    (cellCounter st)
    (match findIndex cellId (cells st) with
     | Some idx => delete idx (cells st)
     | None => cells st
     end)
    (editor_delete cellId (monacoInstances st))
    (cellClipboard st)
    (focusedCellId st)
    (attached st ∖ {[cellId]})
    (timeouts st).
Proof.
  unfold deleteCell.
  destruct (editor_of cellId (monacoInstances st)) as [e|] eqn:E; [done|].
  rewrite (editor_delete_absent _ _ E). by destruct (inherited cellId).
Qed.

(** [deleteCell] returns unless the id is a name that [monacoInstances]
    inherits and holds no editor under. *)
Lemma deleteCell_completion cellId st :
  fst (deleteCell cellId st) =
  if inherited cellId && negb (bool_decide (is_Some (editor_of cellId (monacoInstances st))))
  then Thrown dispose_is_not_a_function else Returned.
Proof.
  unfold deleteCell.
  destruct (editor_of cellId (monacoInstances st)) as [e|] eqn:E.
  - rewrite bool_decide_eq_true_2 by eauto. by rewrite andb_false_r.
  - rewrite bool_decide_eq_false_2 by (by intros [? ?]). by destruct (inherited cellId).
Qed.

Lemma inherited_cell_name n : inherited (cell_name n) = false.
Proof.
  apply bool_decide_eq_false_2. unfold object_prototype_names, cell_name.
  change (lit "cell") with [99%N; 101%N; 108%N; 108%N]. cbn [app].
  intros H.
  repeat (apply elem_of_cons in H as [H|H]; [by vm_compute in H|]).
  by apply elem_of_nil in H.
Qed.

(** *** Focus *)

Lemma getFocusedCell_frame st :
  cells (snd (getFocusedCell st)) = cells st ∧
  cellClipboard (snd (getFocusedCell st)) = cellClipboard st.
Proof.
  unfold getFocusedCell.
  destruct (recorded_focus st); [done|].
  destruct (list_find _ (monacoInstances st)) as [[? [? ?]]|]; [done|].
  by destruct (cells st) eqn:E.
Qed.

(** The cell of the recorded focus is returned when the store holds it. *)
Lemma getFocusedCell_recorded st f c :
  focusedCellId st = Some f → truthy f = true →
  find_cell f (cells st) = Some c →
  fst (getFocusedCell st) = Some c.
Proof. unfold getFocusedCell, recorded_focus. by intros -> -> ->. Qed.

(** With no focus recorded and no editor holding the text focus, the first
    cell is returned, and no cell exactly when the store is empty. *)
Lemma getFocusedCell_fallback st :
  focusedCellId st = None →
  list_find (λ p, hasTextFocus (snd p) = true) (monacoInstances st) = None →
  fst (getFocusedCell st) = head (cells st) ∧
  (fst (getFocusedCell st) = None ↔ cells st = []).
Proof.
  unfold getFocusedCell, recorded_focus. intros -> ->. by destruct (cells st) eqn:E.
Qed.

(** C9.  Two cells are added, the first gains the focus and is deleted: the
    recorded focus names a cell that is gone, and [getFocusedCell] returns no
    cell although the store holds one. *)
Lemma stale_focus_finds_no_cell :
  cells stale_focus ≠ [] ∧
  focusedCellId stale_focus = Some (cell_name 0) ∧
  find_cell (cell_name 0) (cells stale_focus) = None ∧
  fst (getFocusedCell stale_focus) = None.
Proof. by vm_compute. Qed.

(** *** Clipboard *)

(** C10.  When [getFocusedCell] finds no cell, [cutCell] and [copyCell]
    return and leave the store and the clipboard as they are; when the
    clipboard is empty, [pasteCell] leaves the whole state as it is. *)
Theorem clipboard_noop st :
  (fst (getFocusedCell st) = None →
   fst (cutCell st) = Returned ∧
   cells (snd (cutCell st)) = cells st ∧
   cellClipboard (snd (cutCell st)) = cellClipboard st ∧
   cells (copyCell st) = cells st ∧ cellClipboard (copyCell st) = cellClipboard st) ∧
  (cellClipboard st = None → pasteCell st = st).
Proof.
  split.
  - intros Hnone. destruct (getFocusedCell_frame st) as [Hc Hb].
    unfold cutCell, copyCell.
    destruct (getFocusedCell st) as [o st1]. cbn [fst snd] in *. by subst o.
  - unfold pasteCell. by intros ->.
Qed.

(** Cut, copy and paste on a store whose recorded focus is gone and whose
    clipboard is empty. *)
Lemma clipboard_noop_witness :
  fst (cutCell stale_focus) = Returned ∧
  cells (snd (cutCell stale_focus)) = cells stale_focus ∧
  cellClipboard (snd (cutCell stale_focus)) = cellClipboard stale_focus ∧
  cells (copyCell stale_focus) = cells stale_focus ∧
  cellClipboard (copyCell stale_focus) = cellClipboard stale_focus ∧
  pasteCell stale_focus = stale_focus.
Proof.
  destruct (clipboard_noop stale_focus) as [Hcut Hpaste].
  destruct Hcut as (H0 & H1 & H2 & H3 & H4); [by vm_compute|].
  split_and!; [exact H0|exact H1|exact H2|exact H3|exact H4|].
  apply Hpaste. reflexivity.
Defined.

(** *** Drag and drop *)

Lemma of_to_slots cs : of_slots (to_slots cs) = Some cs.
Proof.
  induction cs as [|c cs IH]; [done|].
  change (of_slots (to_slots (c :: cs))) with ((c ::.) <$> of_slots (to_slots cs)).
  by rewrite IH.
Qed.

Lemma onEnd_same i slots : onEnd (Some i) (Some i) slots = slots.
Proof. unfold onEnd. by rewrite Nat.eqb_refl. Qed.

Lemma to_slots_splice n c cs :
  to_slots (splice_insert n c cs) = splice_insert n (Some c) (to_slots cs).
Proof.
  unfold to_slots, splice_insert. by rewrite fmap_app, fmap_cons, fmap_take, fmap_drop.
Qed.

Lemma to_slots_delete k cs : to_slots (delete k cs) = delete k (to_slots cs).
Proof.
  unfold to_slots. revert k. induction cs as [|c cs IH]; intros [|k]; try done.
  simpl. by rewrite <- IH.
Qed.

(** A drag between two different positions of the store takes the cell
    out and puts it back at the new index; the other cells keep their
    order. *)
Lemma onEnd_in_range o n cs c :
  cs !! o = Some c → o ≠ n →
  onEnd (Some o) (Some n) (to_slots cs) = to_slots (splice_insert n c (delete o cs)) ∧
  delete (n `min` length (delete o cs)) (splice_insert n c (delete o cs)) = delete o cs.
Proof.
  intros Hc Hne. split.
  - unfold onEnd. rewrite (proj2 (Nat.eqb_neq o n)) by done.
    unfold to_slots at 1. rewrite list_lookup_fmap, Hc. cbn [fmap option_fmap option_map mjoin option_join].
    by rewrite to_slots_splice, to_slots_delete.
  - unfold splice_insert. generalize (delete o cs). intros l.
    destruct (decide (n ≤ length l)) as [Hn|Hn].
    + rewrite Nat.min_l by done.
      pose proof (delete_middle (take n l) (drop n l) c) as E.
      rewrite length_take, Nat.min_l in E by done.
      by rewrite E, take_drop.
    + rewrite Nat.min_r by lia. rewrite take_ge, drop_ge by lia.
      by rewrite delete_middle, app_nil_r.
Qed.

(** C8.  On a store of two cells, a drag from a position past the end puts
    a slot that holds no cell in front of the store, and a drag to a
    position past the end moves the cell to the end: neither leaves the
    store as it was. *)
Lemma drag_out_of_range :
  onEnd (Some 2) (Some 0) (to_slots (cells two_cells)) = None :: to_slots (cells two_cells) ∧
  onEnd (Some 0) (Some 5) (to_slots (cells two_cells)) = to_slots (rev (cells two_cells)).
Proof. by vm_compute. Qed.

End StoreFacts.

Module StalenessFacts.
Import Store Staleness StoreFacts Examples.

(** A notification for a cell that exists in the store and in the document
    leaves it unexecuted whenever the check reports a change. *)
Lemma contentChanged_unexecuted st cellId cell text :
  find_cell cellId (cells st) = Some cell →
  cellId ∈ attached st →
  is_Some (editor_of cellId (monacoInstances st)) →
  isExecuted cell ≠ Some true ∨ lastExecutedContent cell ≠ Some text →
  let st' := contentChanged cellId text st in
  find_cell cellId (cells st') = Some (set_executed (Some false) None cell) ∧
  attached st' = attached st ∧
  is_Some (editor_of cellId (monacoInstances st')).
Proof.
  intros Hcell Hatt [ed Hed] Hchg. unfold contentChanged. rewrite Hed.
  unfold onDidChangeModelContent. cbn [monacoInstances set_monacoInstances].
  rewrite editor_of_set. cbn [getValue].
  unfold checkContentChanged. cbn [cells set_monacoInstances]. rewrite Hcell.
  assert (negb (bool_decide (isExecuted cell = Some true)) ||
          negb (bool_decide (lastExecutedContent cell = Some text)) = true) as ->.
  { apply orb_true_iff. destruct Hchg as [H|H]; [left|right];
      apply negb_true_iff; by apply bool_decide_eq_false. }
  unfold markCellAsUnexecuted. cbn [cells attached set_monacoInstances].
  rewrite Hcell. rewrite bool_decide_eq_true_2 by done.
  unfold set_cells, set_monacoInstances. cbn [cells attached monacoInstances].
  split_and!; [|done|by rewrite editor_of_set].
  rewrite find_cell_update_eq by done. by rewrite Hcell.
Qed.

(** C6.  A content change of an executed cell to a text other than the one
    that last ran sets [isExecuted] to false, and no later content change,
    the one back to the text that last ran among them, sets it to true
    again. *)
Theorem edit_invalidates_execution st cellId cell lastText text :
  find_cell cellId (cells st) = Some cell →
  cellId ∈ attached st →
  is_Some (editor_of cellId (monacoInstances st)) →
  isExecuted cell = Some true →
  lastExecutedContent cell = Some lastText →
  text ≠ lastText →
  let st1 := contentChanged cellId text st in
  isExecuted <$> find_cell cellId (cells st1) = Some (Some false) ∧
  isExecuted <$> find_cell cellId (cells (contentChanged cellId lastText st1)) = Some (Some false) ∧
  ∀ text', isExecuted <$> find_cell cellId (cells (contentChanged cellId text' st1)) = Some (Some false).
Proof.
  intros Hcell Hatt Hed Hexec Hlast Hne.
  destruct (contentChanged_unexecuted st cellId cell text Hcell Hatt Hed)
    as (Hcell1 & Hatt1 & Hed1).
  { right. congruence. }
  cbv zeta. rewrite Hcell1. split; [done|].
  assert (∀ text', isExecuted <$>
            find_cell cellId (cells (contentChanged cellId text' (contentChanged cellId text st)))
          = Some (Some false)) as Hall.
  { intros text'.
    destruct (contentChanged_unexecuted (contentChanged cellId text st) cellId _ text' Hcell1)
      as (Hcell2 & _ & _); [by rewrite Hatt1|done|by left|].
    by rewrite Hcell2. }
  split; [apply Hall|exact Hall].
Qed.

(** An executed cell is edited and edited back. *)
Lemma edit_invalidates_execution_witness :
  isExecuted <$> find_cell (cell_name 0)
    (cells (contentChanged (cell_name 0) (lit "console.log(2)") executed_doc))
  = Some (Some false) ∧
  isExecuted <$> find_cell (cell_name 0)
    (cells (contentChanged (cell_name 0) (lit "console.log(1+1)")
              (contentChanged (cell_name 0) (lit "console.log(2)") executed_doc)))
  = Some (Some false).
Proof.
  pose proof (edit_invalidates_execution executed_doc (cell_name 0)
    (mkCell (cell_name 0) js None [Log (lit "2")] (Some true) (Some true)
       (Some (lit "console.log(1+1)")))
    (lit "console.log(1+1)") (lit "console.log(2)")) as H.
  destruct H as (H1 & H2 & _).
  - reflexivity.
  - apply (bool_decide_unpack _). vm_compute. exact I.
  - vm_compute. eauto.
  - reflexivity.
  - reflexivity.
  - vm_compute. discriminate.
  - split; [exact H1|exact H2].
Defined.

End StalenessFacts.

Module TraceFacts.
Import Store Trace StoreFacts Examples.

Lemma lit_inj s t : lit s = lit t → s = t.
Proof.
  unfold lit. revert t. induction s as [|a s IH]; intros [|b t]; simpl; try done.
  intros [= Hab Hst]. f_equal; [|by apply IH].
  by rewrite <- (ascii_N_embedding a), <- (ascii_N_embedding b), Hab.
Qed.

Lemma cell_name_inj n m : cell_name n = cell_name m → n = m.
Proof.
  unfold cell_name. intros H%app_inv_head%lit_inj. by apply (inj pretty).
Qed.

Lemma splice_insert_Permutation {A} n (x : A) l : splice_insert n x l ≡ₚ x :: l.
Proof.
  unfold splice_insert. rewrite <- Permutation_middle. by rewrite take_drop.
Qed.

Lemma move_Permutation {A} n k (x : A) l :
  l !! k = Some x → splice_insert n x (delete k l) ≡ₚ l.
Proof.
  intros H. rewrite splice_insert_Permutation. symmetry. by apply delete_Permutation.
Qed.

Lemma valid_Permutation st st' :
  cells st' ≡ₚ cells st → cellCounter st' = cellCounter st → valid st → valid st'.
Proof.
  intros Hp Hc [Hnd Hids]. split.
  - by rewrite Hp.
  - intros c Hin. rewrite Hc. apply Hids. by rewrite <- Hp.
Qed.

Lemma addCell_valid code ty preRender outs index st :
  valid st →
  valid (addCell code ty preRender outs index st) ∧
  length (cells (addCell code ty preRender outs index st)) = S (length (cells st)).
Proof.
  intros [Hnd Hids].
  set (new := mkCell (cell_name (cellCounter st)) ty
                (match ty with md => Some edit | js => None end) outs
                (Some (match ty with
                       | js => negb (Nat.eqb (length outs) 0)
                       | md => preRender
                       end)) None None).
  assert (cells (addCell code ty preRender outs index st) ≡ₚ new :: cells st) as Hp.
  { unfold addCell. cbn [cells]. fold new. destruct index.
    - apply splice_insert_Permutation.
    - by rewrite Permutation_app_comm. }
  split; [|by rewrite Hp].
  split.
  - rewrite Hp, fmap_cons. apply NoDup_cons. split; [|done].
    intros (c & Hc & Hin)%list_elem_of_fmap.
    destruct (Hids c Hin) as (n & Hn & Hid).
    cbn [id new] in Hc. rewrite Hid in Hc. apply cell_name_inj in Hc. lia.
  - intros c Hin. rewrite Hp in Hin. cbn [cellCounter addCell].
    apply elem_of_cons in Hin as [->|Hin].
    + exists (cellCounter st). split; [lia|done].
    + destruct (Hids c Hin) as (n & Hn & Hid). exists n. split; [lia|done].
Qed.

Lemma deleteCell_valid cellId st :
  valid st →
  valid (snd (deleteCell cellId st)) ∧
  length (cells (snd (deleteCell cellId st))) + deletes (Delete cellId) st = length (cells st).
Proof.
  intros [Hnd Hids]. rewrite deleteCell_state. unfold deletes. cbn [cells cellCounter].
  unfold findIndex.
  destruct (list_find _ (cells st)) as [[idx c]|] eqn:E; cbn [fmap option_fmap option_map fst].
  - apply list_find_Some in E as (Hidx & _ & _).
    split; [split|].
    + cbn [cells]. rewrite list_fmap_delete.
      eapply sublist_NoDup; [exact Hnd|apply sublist_delete].
    + cbn [cells cellCounter]. intros d Hd. apply Hids.
      by eapply list_elem_of_delete_inv.
    + rewrite length_delete by eauto. apply lookup_lt_Some in Hidx. lia.
  - split; [by split|lia].
Qed.

Lemma moveCell_valid cellId direction st :
  valid st →
  valid (moveCell cellId direction st) ∧
  length (cells (moveCell cellId direction st)) = length (cells st).
Proof.
  intros Hv. unfold moveCell.
  destruct (list_find _ (cells st)) as [[idx c]|] eqn:E; [|done].
  apply list_find_Some in E as (Hidx & _ & _).
  assert (∀ n, valid (set_cells (λ cs, splice_insert n c (delete idx cs)) st) ∧
               length (cells (set_cells (λ cs, splice_insert n c (delete idx cs)) st)) =
               length (cells st)) as Hmove.
  { intros n. cbn [set_cells cells].
    split; [|by rewrite move_Permutation].
    apply (valid_Permutation st); [|done|exact Hv]. cbn [cells]. by apply move_Permutation. }
  destruct direction, idx; try done; try apply Hmove.
  all: destruct (Nat.leb _ _); [done|apply Hmove].
Qed.

Lemma reorder_valid oldIndex newIndex st :
  valid st → in_range (Reorder oldIndex newIndex) st →
  ∃ st', apply (Reorder oldIndex newIndex) st = Some st' ∧ valid st' ∧
         length (cells st') = length (cells st).
Proof.
  intros Hv Hr. cbn [apply].
  destruct oldIndex as [o|], newIndex as [n|];
    try (cbn [onEnd]; rewrite of_to_slots; eexists; split; [done|]; by destruct st).
  cbn [in_range] in Hr. apply lookup_lt_is_Some in Hr as [c Hc].
  destruct (decide (o = n)) as [->|Hne].
  - rewrite onEnd_same, of_to_slots. eexists; split; [done|]. by destruct st.
  - destruct (onEnd_in_range o n (cells st) c Hc Hne) as [-> _].
    rewrite of_to_slots. eexists; split; [done|]. cbn [set_cells cells].
    split; [|by rewrite move_Permutation].
    apply (valid_Permutation st); [|done|exact Hv]. cbn [cells]. by apply move_Permutation.
Qed.

Lemma apply_valid op st :
  valid st → in_range op st →
  ∃ st', apply op st = Some st' ∧ valid st' ∧
         length (cells st') + deletes op st = length (cells st) + creates op.
Proof.
  intros Hv Hr. destruct op as [code ty pre outs index|cellId|cellId dir|o n].
  - exists (addCell code ty pre outs index st). split; [done|].
    destruct (addCell_valid code ty pre outs index st Hv) as [? Hl].
    split; [done|]. rewrite Hl. cbn [deletes creates]. lia.
  - exists (snd (deleteCell cellId st)). split; [done|].
    destruct (deleteCell_valid cellId st Hv) as [? Hl].
    split; [done|]. rewrite Hl. cbn [creates]. lia.
  - exists (moveCell cellId dir st). split; [done|].
    destruct (moveCell_valid cellId dir st Hv) as [? Hl].
    split; [done|]. rewrite Hl. cbn [deletes creates]. lia.
  - destruct (reorder_valid o n st Hv Hr) as (st' & Ha & Hv' & Hl).
    exists st'. split_and!; [done..|]. rewrite Hl. cbn [deletes creates]. lia.
Qed.

(** X15.  After every sequence of insertions, deletions, moves and drags
    between positions of the store, no id occurs twice and the length of the
    store is what was there and was created less what was deleted. *)
Theorem store_invariant ops st :
  valid st → all_in_range ops st →
  ∃ st', run ops st = Some st' ∧
         NoDup (id <$> cells st') ∧
         length (cells st') + deleted ops st = length (cells st) + created ops.
Proof.
  revert st. induction ops as [|op ops IH]; intros st Hv Hr.
  - exists st. split_and!; [done|by destruct Hv|cbn; lia].
  - destruct Hr as [Hop Hr].
    destruct (apply_valid op st Hv Hop) as (st1 & Happ & Hv1 & Hlen).
    cbn [run deleted created]. rewrite Happ in *.
    destruct (IH st1 Hv1 Hr) as (st' & Hrun & Hnd & Hlen').
    exists st'. split_and!; [done..|lia].
Qed.

(** C5.  From the empty store, one insertion and one drag from a position
    past the end: the array has two slots, one of which holds no cell,
    while one cell was created and none deleted. *)
Lemma drag_breaks_count :
  valid one_cell ∧
  onEnd (Some 1) (Some 0) (to_slots (cells one_cell)) = None :: to_slots (cells one_cell) ∧
  length (onEnd (Some 1) (Some 0) (to_slots (cells one_cell))) = 2 ∧
  length (cells empty_notebook) +
    created [Insert [] js false [] None; Reorder (Some 1) (Some 0)] = 1 ∧
  deleted [Insert [] js false [] None; Reorder (Some 1) (Some 0)] empty_notebook = 0 ∧
  run [Insert [] js false [] None; Reorder (Some 1) (Some 0)] empty_notebook = None.
Proof.
  split; [|by vm_compute].
  apply (addCell_valid [] js false [] None empty_notebook).
  split; [constructor|]. intros c Hc. by apply elem_of_nil in Hc.
Qed.

End TraceFacts.

(** ** Execution engine *)

Module EngineFacts.
Import Store Staleness Engine StoreFacts Examples MoreExamples.



Lemma update_cell_compose i f g cs :
  (∀ c, id (f c) = id c) →
  update_cell i g (update_cell i f cs) = update_cell i (λ c, g (f c)) cs.
Proof.
  intros Hf. induction cs as [|c cs IH]; [done|].
  rewrite !update_cell_cons. destruct (decide (id c = i)) as [Hc|Hc].
  - rewrite update_cell_cons, Hf. by rewrite decide_True.
  - rewrite update_cell_cons. rewrite decide_False by done. by rewrite IH.
Qed.


Lemma update_cell_fmap_id i f cs :
  (∀ c, id (f c) = id c) → id <$> update_cell i f cs = id <$> cs.
Proof.
  intros Hf. induction cs as [|c cs IH]; [done|].
  rewrite update_cell_cons. destruct (decide (id c = i)).
  - by rewrite !fmap_cons, Hf.
  - by rewrite !fmap_cons, IH.
Qed.

Lemma update_cell_lookup i f cs k c :
  (∀ c, id (f c) = id c) →
  update_cell i f cs !! k = Some c →
  ∃ c0, cs !! k = Some c0 ∧ (c = c0 ∨ (id c0 = i ∧ c = f c0)).
Proof.
  intros Hf. revert k. induction cs as [|d cs IH]; intros k; [done|].
  rewrite update_cell_cons. destruct (decide (id d = i)) as [Hd|Hd].
  - destruct k as [|k]; cbn; [intros [= <-]; eauto|eauto].
  - destruct k as [|k]; cbn; [intros [= <-]; eauto|apply IH].
Qed.

Lemma outputs_console calls c :
  outputs (fold_left (λ c call, sandboxConsole call c) calls c) =
  outputs c ++ (output_of <$> calls).
Proof.
  revert c. induction calls as [|call calls IH]; intros c; [by rewrite app_nil_r|].
  cbn [fold_left]. rewrite IH. cbn [outputs sandboxConsole fmap list_fmap].
  by rewrite <- app_assoc.
Qed.


Lemma type_console calls c :
  type (fold_left (λ c call, sandboxConsole call c) calls c) = type c.
Proof. revert c. induction calls as [|call calls IH]; intros c; [done|]. cbn [fold_left]. by rewrite IH. Qed.



(** *** The scope *)



Section WithValues.
Context {value : Type}.
Implicit Types (scope : Scope value) (p q : Property value).

Lemma scope_get_None key scope : key ∉ fst <$> scope → scope_get key scope = None.
Proof.
  induction scope as [|[k p] scope IH]; [done|]. cbn [fmap list_fmap fst scope_get].
  intros [Hk Hin]%not_elem_of_cons. rewrite decide_False by done. by apply IH.
Qed.












End WithValues.

(** *** Runs *)

Section WithRuntime.
Context {value : Type}.
Variable AsyncFunction : jsstring → jsstring + Script value.








End WithRuntime.


(** C2.  A code cell whose text does not compile is run: the error leaves
    [runCell], the cell has no output and is not marked as executed. *)
Lemma broken_text_propagates :
  fst (fst (runCell runtime (cell_name 0) broken_cell [])) = Thrown (lit "Unexpected token '}'") ∧
  find_cell (cell_name 0) (cells (snd (fst (runCell runtime (cell_name 0) broken_cell [])))) =
    Some (mkCell (cell_name 0) js None [] (Some false) None None).
Proof. by vm_compute. Qed.

(** The sibling path: a script that is rejected is caught, becomes an error
    output, and the cell is marked as executed. *)
Lemma rejection_caught :
  fst (fst (runCell runtime (cell_name 0) throwing_cell [])) = Returned ∧
  find_cell (cell_name 0) (cells (snd (fst (runCell runtime (cell_name 0) throwing_cell [])))) =
    Some (mkCell (cell_name 0) js None [Error (lit "Uncaught: boom")] (Some true)
            (Some true) (Some throwing_text)).
Proof. by vm_compute. Qed.




End EngineFacts.

(** ** Parser: what it drops, the shape of what it returns *)

Module ParserMore.
Import Parser Serializer RoundTrip ParserSpec JsStringFacts ParserFacts Examples Shapes.

Lemma fold_plain_clean acc m ls :
  Forall (λ l, plain_line l = true) ls →
  fold_left step ls (clean acc m) = clean acc m.
Proof.
  induction 1 as [|l ls Hl _ IH]; [done|].
  cbn [fold_left]. by rewrite (step_plain _ _ Hl).
Qed.

(** X1.  A text none of whose lines the parser takes for a marker gives no
    cell at all: [parseNotebookFile] returns the empty array, on which the
    loader falls back to one empty code cell. *)
Theorem parse_unrecognized content :
  marker_free content = true → parseNotebookFile content = [].
Proof.
  unfold marker_free. intros H.
  assert (Forall (λ l, plain_line l = true) (split_lines content)) as Hp.
  { apply Forall_forall. intros l Hl. rewrite forallb_forall in H.
    by apply H, list_elem_of_In. }
  unfold parseNotebookFile. change init with (clean [] edit).
  by rewrite fold_plain_clean, finish_clean.
Qed.

Lemma parse_unrecognized_witness :
  parseNotebookFile (lit "let x = 1;" ++ [LF] ++ lit "  // a comment" ++ [LF]) = [].
Proof. apply parse_unrecognized. reflexivity. Defined.

Lemma trimEnd_idem s : trimEnd (trimEnd s) = trimEnd s.
Proof.
  induction s as [|c s IH]; [done|]. cbn [trimEnd].
  destruct (trimEnd s) as [|d r] eqn:E.
  - destruct (isWhiteSpace c) eqn:Hc; [done|]. cbn. by rewrite Hc.
  - change (trimEnd (c :: d :: r)) with
      (match trimEnd (d :: r) with
       | [] => if isWhiteSpace c then [] else [c]
       | x => c :: x
       end).
    by rewrite IH.
Qed.

Lemma trimStart_head s : trimStart s = [] ∨ ∃ c r, trimStart s = c :: r ∧ isWhiteSpace c = false.
Proof.
  induction s as [|c s IH]; [by left|]. cbn [trimStart].
  destruct (isWhiteSpace c) eqn:Hc; [done|]. right. eauto.
Qed.

Lemma trimEnd_head c s :
  isWhiteSpace c = false → ∃ r, trimEnd (c :: s) = c :: r.
Proof. intros Hc. cbn [trimEnd]. destruct (trimEnd s); rewrite ?Hc; eauto. Qed.

Lemma trim_idem s : trim (trim s) = trim s.
Proof.
  unfold trim at 2 3. destruct (trimStart_head s) as [->|(c & r & -> & Hc)]; [done|].
  destruct (trimEnd_head c r Hc) as [x Hx]. rewrite Hx.
  rewrite trim_head_nonws by done. by rewrite <- Hx, trimEnd_idem.
Qed.

Lemma push_first_js_shape o cs :
  Forall data_shape cs → Forall data_shape (push_first_js o cs).
Proof.
  induction 1 as [|d cs Hd Hcs IH]; [constructor|].
  cbn [push_first_js]. destruct (cd_type d) eqn:Hty; constructor; try done.
  unfold data_shape, push_output in *. cbn [cd_code cd_type cd_mode cd_outputs].
  rewrite Hty in *. destruct Hd as [Ht [Hm _]]. split_and!; eauto.
Qed.

Lemma push_last_js_shape o cs :
  Forall data_shape cs → Forall data_shape (push_last_js o cs).
Proof.
  intros H. unfold push_last_js. apply Forall_rev, push_first_js_shape. by apply Forall_rev.
Qed.

Lemma addJsCell_shape st : shape_state st → shape_state (addJsCell st).
Proof.
  unfold shape_state, addJsCell. intros H. destruct (jsCodeLines st); [done|].
  cbn [cellsData]. apply Forall_app. split; [done|]. repeat constructor; cbn; eauto using trim_idem.
Qed.

Lemma addMdCell_shape st : shape_state st → shape_state (addMdCell st).
Proof.
  unfold shape_state, addMdCell. intros H.
  destruct (truthy (trim (mdContent st))); [|done].
  cbn [cellsData]. apply Forall_app. split; [done|]. repeat constructor; cbn; eauto using trim_idem.
Qed.

Lemma addOutput_shape st : shape_state st → shape_state (addOutput st).
Proof.
  unfold shape_state, addOutput. intros H.
  destruct (_ && _); [|done]. cbn [cellsData]. by apply push_last_js_shape.
Qed.

Lemma step_shape st line : shape_state st → shape_state (step st line).
Proof.
  intros H. unfold step. cbv zeta.
  repeat (case_match; try done);
    unfold shape_state, set_flags, set_mdMode, set_mdContent, set_outputContent, set_jsCodeLines in *;
    cbn [cellsData];
    try (by apply addOutput_shape, addMdCell_shape);
    try (by apply addOutput_shape, addJsCell_shape);
    try (by apply addMdCell_shape, addJsCell_shape);
    try (by apply addJsCell_shape);
    try (by apply addMdCell_shape);
    try (by apply addOutput_shape).
Qed.

Lemma fold_step_shape ls st : shape_state st → shape_state (fold_left step ls st).
Proof.
  revert st. induction ls as [|l ls IH]; intros st H; [done|].
  by apply IH, step_shape.
Qed.

Lemma finish_shape st : shape_state st → shape_state (finish st).
Proof. intros H. by apply addOutput_shape, addMdCell_shape, addJsCell_shape. Qed.

(** X2.  Whatever the text, the text of every parsed cell is what [trim]
    leaves of it; a parsed text cell has a mode and no [outputs] field, a
    parsed code cell has an [outputs] array and no mode. *)
Theorem parse_shape content : Forall data_shape (parseNotebookFile content).
Proof. apply finish_shape, fold_step_shape. constructor. Qed.

Lemma push_first_js_md o cs :
  Forall (λ d, cd_type d = md) cs → push_first_js o cs = cs.
Proof.
  induction 1 as [|d cs Hd _ IH]; [done|]. cbn [push_first_js]. by rewrite Hd, IH.
Qed.

Lemma push_first_js_app_md o mds c rest :
  Forall (λ d, cd_type d = md) mds → cd_type c = js →
  push_first_js o (mds ++ c :: rest) = mds ++ push_output o c :: rest.
Proof.
  intros Hm Hc. induction Hm as [|d mds Hd _ IH]; cbn [push_first_js app].
  - by rewrite Hc.
  - by rewrite Hd, IH.
Qed.

(** X3.  A pending output block whose text is not blank goes to the last
    code cell parsed so far, past the text cells that follow it, and the
    pending text is reset.  When only text cells were parsed the block is
    dropped.  When no cell was parsed yet, nothing changes and the text stays
    pending. *)
Theorem addOutput_nearest st acc c mds :
  truthy (trim (outputContent st)) = true →
  Forall (λ d, cd_type d = md) mds →
  (cellsData st = acc ++ c :: mds → cd_type c = js →
   cellsData (addOutput st) = acc ++ push_output (Log (trim (outputContent st))) c :: mds ∧
   outputContent (addOutput st) = []) ∧
  (cellsData st = mds → mds ≠ [] →
   cellsData (addOutput st) = mds ∧ outputContent (addOutput st) = []) ∧
  (cellsData st = [] → addOutput st = st).
Proof.
  intros Ht Hm. unfold addOutput. rewrite Ht. split_and!.
  - intros Hc Hjs. rewrite Hc, length_app. cbn [length].
    replace (Nat.eqb (length acc + S (length mds)) 0) with false
      by (symmetry; apply Nat.eqb_neq; lia).
    cbn [andb negb cellsData outputContent]. split; [|done].
    unfold push_last_js. rewrite rev_app_distr. cbn [rev]. rewrite <- app_assoc. cbn [app].
    rewrite push_first_js_app_md by (by apply Forall_rev || done).
    rewrite rev_app_distr. cbn [rev app]. by rewrite !rev_involutive, <- app_assoc.
  - intros Hc Hne. rewrite Hc. destruct mds as [|d mds']; [done|].
    cbn [length Nat.eqb andb negb cellsData outputContent]. split; [|done].
    unfold push_last_js. rewrite push_first_js_md by (by apply Forall_rev).
    by rewrite rev_involutive.
  - by intros ->.
Qed.

Lemma addOutput_nearest_witness :
  let c := mkCellData js (lit "x") None (Some []) in
  let t := mkCellData md (lit "note") (Some edit) None in
  cellsData (addOutput (mkPState [c; t] [] [] (lit " 42 ") false false true edit)) =
    [push_output (Log (lit "42")) c; t] ∧
  cellsData (addOutput (mkPState [t] [] [] (lit " 42 ") false false true edit)) = [t] ∧
  addOutput (mkPState [] [] [] (lit " 42 ") false false true edit) =
    mkPState [] [] [] (lit " 42 ") false false true edit.
Proof.
  intros c t.
  destruct (addOutput_nearest (mkPState [c; t] [] [] (lit " 42 ") false false true edit)
              [] c [t] eq_refl) as (H1 & _ & _); [by repeat constructor|].
  destruct (addOutput_nearest (mkPState [t] [] [] (lit " 42 ") false false true edit)
              [] c [t] eq_refl) as (_ & H2 & _); [by repeat constructor|].
  destruct (addOutput_nearest (mkPState [] [] [] (lit " 42 ") false false true edit)
              [] c [] eq_refl) as (_ & _ & H3); [constructor|].
  split_and!.
  - exact (proj1 (H1 eq_refl eq_refl)).
  - exact (proj1 (H2 eq_refl ltac:(discriminate))).
  - exact (H3 eq_refl).
Defined.

End ParserMore.

(** ** Serializer: escaping *)

Module SerializerMore.
Import Serializer Shapes.

(** X4.  What the serializer writes for an output has no character that
    ends a tag or an attribute value: neither the escaped text of an error
    output nor the sanitized source of an image holds a less-than sign, a
    greater-than sign or a quote. *)
Theorem escaped_has_no_delimiter s :
  forallb (λ c, negb (html_delimiter c)) (escapeHtml s) = true ∧
  forallb (λ c, negb (html_delimiter c)) (stripSrc s) = true.
Proof.
  split.
  - induction s as [|c s IH]; [done|].
    unfold escapeHtml in *. cbn [flat_map]. rewrite forallb_app, IH, andb_true_r.
    unfold escapeMap, html_delimiter.
    destruct (N.eqb_spec c 60) as [->|?]; [reflexivity|].
    destruct (N.eqb_spec c 62) as [->|?]; [reflexivity|].
    destruct (N.eqb_spec c 38) as [->|?]; [reflexivity|].
    destruct (N.eqb_spec c DQUOTE) as [->|?]; [reflexivity|].
    destruct (N.eqb_spec c 39) as [->|?]; [reflexivity|].
    apply forallb_forall. intros x [<-|[]]. apply negb_true_iff.
    rewrite !orb_false_iff. split_and!; by apply N.eqb_neq.
  - apply forallb_forall. intros x Hx%list_elem_of_In%list_elem_of_filter.
    destruct Hx as [Hx _]. by apply Is_true_true in Hx.
Qed.

Lemma escapeMap_inj c d x y :
  escapeMap c ++ x = escapeMap d ++ y → c = d ∧ x = y.
Proof.
  unfold escapeMap.
  destruct (N.eqb_spec c 60) as [->|?]; [|destruct (N.eqb_spec c 62) as [->|?];
    [|destruct (N.eqb_spec c 38) as [->|?]; [|destruct (N.eqb_spec c DQUOTE) as [->|?];
    [|destruct (N.eqb_spec c 39) as [->|?]]]]];
  (destruct (N.eqb_spec d 60) as [->|?]; [|destruct (N.eqb_spec d 62) as [->|?];
    [|destruct (N.eqb_spec d 38) as [->|?]; [|destruct (N.eqb_spec d DQUOTE) as [->|?];
    [|destruct (N.eqb_spec d 39) as [->|?]]]]]);
  cbn; intros H; injection H; intros; subst; done.
Qed.

(** X5.  Escaping loses nothing: two texts with the same escaped form are
    the same text. *)
Theorem escapeHtml_inj a b : escapeHtml a = escapeHtml b → a = b.
Proof.
  revert b. induction a as [|c a IH]; intros [|d b]; unfold escapeHtml; cbn [flat_map].
  - done.
  - intros H. exfalso. unfold escapeMap in H. by repeat case_match.
  - intros H. exfalso. unfold escapeMap in H. by repeat case_match.
  - intros [-> H]%escapeMap_inj. f_equal. by apply IH.
Qed.

Lemma escapeHtml_inj_witness : lit "a<b" = lit "a<b".
Proof. apply escapeHtml_inj. reflexivity. Defined.

End SerializerMore.

(** ** Store: insertion, deletion, moves, clipboard *)

Module StoreMore.
Import Store Trace StoreFacts TraceFacts Examples Loader MoreExamples.

Lemma valid_empty : valid empty_notebook.
Proof. split; [constructor|]. intros c Hc. by apply elem_of_nil in Hc. Qed.

Lemma valid_two_cells : valid two_cells.
Proof.
  apply (addCell_valid [] js false [] None one_cell).
  apply (addCell_valid [] js false [] None empty_notebook), valid_empty.
Qed.

Lemma find_cell_app j a b :
  find_cell j (a ++ b) =
  match find_cell j a with Some c => Some c | None => find_cell j b end.
Proof.
  induction a as [|c a IH]; [done|]. cbn [app]. rewrite !find_cell_cons.
  by destruct (decide (id c = j)).
Qed.

Lemma find_cell_None j l : (∀ c, c ∈ l → id c ≠ j) → find_cell j l = None.
Proof.
  induction l as [|c l IH]; intros H; [done|]. rewrite find_cell_cons.
  rewrite decide_False by (apply H; left). apply IH. intros d Hd. apply H. by right.
Qed.

Lemma find_cell_Some_id i cs c : find_cell i cs = Some c → id c = i ∧ c ∈ cs.
Proof.
  induction cs as [|d cs IH]; [done|]. rewrite find_cell_cons.
  destruct (decide (id d = i)); [intros [= ->]; split; [done|left]|].
  intros [? ?]%IH. split; [done|by right].
Qed.

Lemma list_find_NoDup (l : list Cell) k c :
  NoDup (id <$> l) → l !! k = Some c →
  list_find (λ x, id x = id c) l = Some (k, c).
Proof.
  intros Hnd Hk. apply list_find_Some. split_and!; [done..|].
  intros j y Hj Hlt Hid.
  assert (j = k); [|lia].
  eapply (NoDup_lookup _ _ _ _ Hnd); rewrite list_lookup_fmap; [by rewrite Hj|].
  by rewrite Hk, Hid.
Qed.

Lemma find_cell_NoDup (l : list Cell) k c :
  NoDup (id <$> l) → l !! k = Some c →
  find_cell (id c) l = Some c ∧ findIndex (id c) l = Some k.
Proof.
  intros Hnd Hk. unfold find_cell, findIndex. by rewrite (list_find_NoDup l k c).
Qed.

Lemma find_cell_lookup i l c :
  find_cell i l = Some c → ∃ k, l !! k = Some c ∧ findIndex i l = Some k.
Proof.
  unfold find_cell, findIndex. destruct (list_find _ l) as [[k d]|] eqn:E; [|done].
  intros [= ->]. exists k. split; [|done]. by apply list_find_Some in E as [? _].
Qed.

Lemma splice_insert_lookup {A} i (x : A) l :
  splice_insert i x l !! (i `min` length l) = Some x ∧
  delete (i `min` length l) (splice_insert i x l) = l.
Proof.
  unfold splice_insert.
  assert (length (take i l) = i `min` length l) as Hlen by apply length_take.
  rewrite <- Hlen. split.
  - by rewrite list_lookup_middle.
  - by rewrite delete_middle, take_drop.
Qed.

Lemma valid_fresh st c : valid st → c ∈ cells st → id c ≠ cell_name (cellCounter st).
Proof.
  intros [_ Hids] Hc Heq. destruct (Hids c Hc) as (n & Hn & Hid).
  rewrite Hid in Heq. apply cell_name_inj in Heq. lia.
Qed.

Lemma cell_name_truthy n : truthy (cell_name n) = true.
Proof. done. Qed.

(** X6.  In a valid store [addCell] makes a cell under a fresh id, of the
    kind and with the outputs asked for and not marked as executed; it sits
    at the index given, at the end when the index is left out or past the
    end; taking it out again gives the cells there were; its editor holds the
    text given, its container is in the document, and looking up any other id
    gives what it gave before. *)
Theorem addCell_lookup code ty preRender outs index st :
  valid st →
  let st' := addCell code ty preRender outs index st in
  let cellId := cell_name (cellCounter st) in
  let k := match index with Some i => i `min` length (cells st) | None => length (cells st) end in
  (∃ c, find_cell cellId (cells st') = Some c ∧ cells st' !! k = Some c ∧
        id c = cellId ∧ type c = ty ∧ outputs c = outs ∧
        isExecuted c = None ∧ lastExecutedContent c = None) ∧
  delete k (cells st') = cells st ∧
  editor_of cellId (monacoInstances st') = Some (mkEditor code false) ∧
  cellId ∈ attached st' ∧
  ∀ j, j ≠ cellId → find_cell j (cells st') = find_cell j (cells st).
Proof.
  intros Hv st' cellId k.
  set (new := mkCell cellId ty
                (match ty with md => Some edit | js => None end) outs
                (Some (match ty with
                       | js => negb (Nat.eqb (length outs) 0)
                       | md => preRender
                       end)) None None).
  assert (cells st' = splice_insert k new (cells st)) as Hcells.
  { unfold st', addCell, k. cbn [cells]. fold cellId. fold new. destruct index as [i|].
    - unfold splice_insert. destruct (decide (i ≤ length (cells st))).
      + by rewrite Nat.min_l.
      + rewrite Nat.min_r by lia. by rewrite !take_ge, !drop_ge by lia.
    - unfold splice_insert. by rewrite take_ge, drop_ge by lia. }
  assert (k `min` length (cells st) = k) as Hk.
  { unfold k. destruct index; lia. }
  destruct (splice_insert_lookup k new (cells st)) as [Hl Hd]. rewrite Hk in Hl, Hd.
  assert (∀ l, (∀ c, c ∈ l → c ∈ cells st) → find_cell cellId l = None) as Hnone.
  { intros l Hl'. apply find_cell_None. intros c Hc. by apply valid_fresh, Hl'. }
  split_and!.
  - exists new. rewrite Hcells. split_and!; try done.
    unfold splice_insert. rewrite find_cell_app, Hnone.
    + rewrite find_cell_cons. by rewrite decide_True.
    + intros c (i & Hi & _)%elem_of_take. by eapply list_elem_of_lookup_2.
  - by rewrite Hcells.
  - unfold st', addCell. cbn [monacoInstances]. apply editor_of_set.
  - unfold st', addCell. cbn [attached]. set_solver.
  - intros j Hj. rewrite Hcells. unfold splice_insert.
    rewrite find_cell_app, find_cell_cons, decide_False by done.
    rewrite <- find_cell_app. by rewrite take_drop.
Qed.

Lemma addCell_lookup_witness :
  (∃ c, find_cell (cell_name 2) (cells (addCell (lit "1+1") js false [] (Some 1) two_cells)) = Some c ∧
        cells (addCell (lit "1+1") js false [] (Some 1) two_cells) !! 1 = Some c) ∧
  delete 1 (cells (addCell (lit "1+1") js false [] (Some 1) two_cells)) = cells two_cells.
Proof.
  assert (valid two_cells) as Hv.
  { apply addCell_valid, addCell_valid. split; [constructor|]. intros c Hc. by apply elem_of_nil in Hc. }
  destruct (addCell_lookup (lit "1+1") js false [] (Some 1) two_cells Hv)
    as ((c & H1 & H2 & _) & H3 & _).
  split; [exists c; split; [exact H1|exact H2]|exact H3].
Defined.

Lemma editor_of_delete i m : editor_of i (editor_delete i m) = None.
Proof.
  induction m as [|[k e] m IH]; [done|]. unfold editor_delete in *.
  rewrite filter_cons. cbn [fst]. destruct (decide (k ≠ i)) as [Hk|Hk]; [|done].
  rewrite editor_of_cons. by rewrite decide_False.
Qed.

Lemma editor_of_delete_ne i j m : i ≠ j → editor_of j (editor_delete i m) = editor_of j m.
Proof.
  intros Hij. induction m as [|[k e] m IH]; [done|]. unfold editor_delete in *.
  rewrite filter_cons. cbn [fst]. destruct (decide (k ≠ i)) as [Hk|Hk].
  - rewrite !editor_of_cons. by rewrite IH.
  - apply dec_stable in Hk. subst k. rewrite IH, editor_of_cons. by rewrite decide_False.
Qed.

Lemma editor_delete_idem i m : editor_delete i (editor_delete i m) = editor_delete i m.
Proof.
  induction m as [|[k e] m IH]; [done|]. unfold editor_delete in *.
  rewrite filter_cons. cbn [fst]. destruct (decide (k ≠ i)) as [Hk|Hk]; [|done].
  rewrite filter_cons. cbn [fst]. rewrite decide_True by done. by rewrite IH.
Qed.

Lemma delete_other_ids (l : list Cell) k c :
  NoDup (id <$> l) → l !! k = Some c → ∀ d, d ∈ delete k l → id d ≠ id c.
Proof.
  intros Hnd Hk d Hd Heq.
  rewrite (delete_Permutation l k c Hk), fmap_cons in Hnd.
  apply NoDup_cons in Hnd as [Hnot _]. apply Hnot.
  apply list_elem_of_fmap. by exists d.
Qed.

Lemma find_cell_delete_ne j (l : list Cell) k c :
  l !! k = Some c → id c ≠ j → find_cell j (delete k l) = find_cell j l.
Proof.
  revert k. induction l as [|d l IH]; intros [|k] Hk Hne; try done.
  - cbn in Hk. injection Hk as ->. cbn [delete list_delete].
    rewrite find_cell_cons. by rewrite decide_False.
  - cbn [delete list_delete]. rewrite !find_cell_cons. cbn in Hk.
    destruct (decide (id d = j)); [done|]. by apply IH.
Qed.

(** X7.  When no id occurs twice, [deleteCell] leaves no cell, no editor
    of its own and no container under the id, whether it returns or throws,
    and does not touch the cell or the editor of any other id; an id that
    no cell has leaves the cells as they were; a second call changes nothing
    more.  It returns under every id that is no property name of
    [Object.prototype], and then returns again on the store it left; under
    such a name that holds no editor it throws. *)
Theorem deleteCell_gone cellId st :
  NoDup (id <$> cells st) →
  find_cell cellId (cells (snd (deleteCell cellId st))) = None ∧
  editor_of cellId (monacoInstances (snd (deleteCell cellId st))) = None ∧
  (cellId ∉ attached (snd (deleteCell cellId st))) ∧
  (∀ j, j ≠ cellId →
        find_cell j (cells (snd (deleteCell cellId st))) = find_cell j (cells st) ∧
        editor_of j (monacoInstances (snd (deleteCell cellId st))) =
          editor_of j (monacoInstances st)) ∧
  (find_cell cellId (cells st) = None → cells (snd (deleteCell cellId st)) = cells st) ∧
  snd (deleteCell cellId (snd (deleteCell cellId st))) = snd (deleteCell cellId st) ∧
  (inherited cellId = false →
   fst (deleteCell cellId st) = Returned ∧
   deleteCell cellId (snd (deleteCell cellId st)) = (Returned, snd (deleteCell cellId st))) ∧
  (inherited cellId = true → editor_of cellId (monacoInstances st) = None →
   fst (deleteCell cellId st) = Thrown dispose_is_not_a_function).
Proof.
  intros Hnd.
  assert (find_cell cellId (cells (snd (deleteCell cellId st))) = None) as Hgone.
  { rewrite deleteCell_state. cbn [cells]. unfold findIndex.
    destruct (list_find _ (cells st)) as [[k c]|] eqn:E; cbn [fmap option_fmap option_map fst].
    - apply list_find_Some in E as (Hk & Hid & _). apply find_cell_None.
      intros d Hd. rewrite <- Hid. by eapply delete_other_ids.
    - unfold find_cell. by rewrite E. }
  assert (snd (deleteCell cellId (snd (deleteCell cellId st))) = snd (deleteCell cellId st))
    as Htwice.
  { rewrite (deleteCell_state cellId (snd (deleteCell cellId st))). unfold findIndex.
    unfold find_cell in Hgone.
    destruct (list_find _ (cells (snd (deleteCell cellId st)))) as [[k c]|]; [done|].
    cbn [fmap option_fmap option_map]. rewrite deleteCell_state.
    cbn [cellCounter cells monacoInstances cellClipboard focusedCellId attached timeouts].
    f_equal; [apply editor_delete_idem|].
    apply set_eq. intros x. rewrite !elem_of_difference. tauto. }
  split_and!.
  - exact Hgone.
  - rewrite deleteCell_state. cbn [monacoInstances]. apply editor_of_delete.
  - rewrite deleteCell_state. cbn [attached].
    intros [_ H]%elem_of_difference. apply H. by apply elem_of_singleton.
  - intros j Hj. rewrite deleteCell_state. cbn [cells monacoInstances].
    split; [|by apply editor_of_delete_ne].
    unfold findIndex.
    destruct (list_find _ (cells st)) as [[k c]|] eqn:E; cbn [fmap option_fmap option_map fst]; [|done].
    apply list_find_Some in E as (Hk & Hid & _).
    apply (find_cell_delete_ne j _ k c Hk). congruence.
  - rewrite deleteCell_state. unfold find_cell, findIndex. cbn [cells].
    by destruct (list_find _ (cells st)) as [[k c]|].
  - exact Htwice.
  - intros Hno.
    assert (∀ s, fst (deleteCell cellId s) = Returned) as Hret.
    { intros s. rewrite deleteCell_completion. by rewrite Hno. }
    split; [apply Hret|].
    rewrite (surjective_pairing (deleteCell cellId (snd (deleteCell cellId st)))).
    by rewrite Hret, Htwice.
  - intros Hin Hed. rewrite deleteCell_completion, Hin, Hed.
    by rewrite bool_decide_eq_false_2 by (by intros [? ?]).
Qed.

Lemma deleteCell_gone_witness :
  find_cell (cell_name 0) (cells (snd (deleteCell (cell_name 0) two_cells))) = None ∧
  cells (snd (deleteCell (cell_name 5) two_cells)) = cells two_cells ∧
  deleteCell (cell_name 0) (snd (deleteCell (cell_name 0) two_cells)) =
    (Returned, snd (deleteCell (cell_name 0) two_cells)) ∧
  fst (deleteCell (lit "toString") two_cells) = Thrown dispose_is_not_a_function ∧
  cells (snd (deleteCell (lit "toString") two_cells)) = cells two_cells.
Proof.
  assert (NoDup (id <$> cells two_cells)) as Hnd.
  { apply (bool_decide_unpack _). by vm_compute. }
  destruct (deleteCell_gone (cell_name 0) two_cells Hnd) as (H1 & _ & _ & _ & _ & _ & H7 & _).
  destruct (deleteCell_gone (cell_name 5) two_cells Hnd) as (_ & _ & _ & _ & H5 & _).
  destruct (deleteCell_gone (lit "toString") two_cells Hnd) as (_ & _ & _ & _ & H5' & _ & _ & H8).
  split_and!.
  - exact H1.
  - exact (H5 eq_refl).
  - exact (proj2 (H7 eq_refl)).
  - exact (H8 eq_refl eq_refl).
  - exact (H5' eq_refl).
Defined.

Lemma delete_snoc_middle {A} (l1 l2 : list A) a b :
  delete (S (length l1)) (l1 ++ a :: b :: l2) = l1 ++ a :: l2.
Proof.
  replace (l1 ++ a :: b :: l2) with ((l1 ++ [a]) ++ b :: l2) by (by rewrite <- app_assoc).
  replace (S (length l1)) with (length (l1 ++ [a])) by (rewrite length_app; cbn; lia).
  by rewrite delete_middle, <- app_assoc.
Qed.

Lemma splice_insert_length {A} (l1 l2 : list A) x :
  splice_insert (length l1) x (l1 ++ l2) = l1 ++ x :: l2.
Proof. unfold splice_insert. by rewrite take_app_length, drop_app_length. Qed.

Lemma moveCell_up_cells st l1 a b l2 :
  NoDup (id <$> cells st) → cells st = l1 ++ a :: b :: l2 →
  cells (moveCell (id b) up st) = l1 ++ b :: a :: l2.
Proof.
  intros Hnd Hc. unfold moveCell.
  rewrite (list_find_NoDup (cells st) (S (length l1)) b Hnd).
  2:{ rewrite Hc. replace (l1 ++ a :: b :: l2) with ((l1 ++ [a]) ++ b :: l2) by (by rewrite <- app_assoc).
      replace (S (length l1)) with (length (l1 ++ [a])) by (rewrite length_app; cbn; lia).
      apply list_lookup_middle. done. }
  cbn [set_cells cells]. rewrite Hc, delete_snoc_middle.
  apply splice_insert_length.
Qed.

Lemma moveCell_down_cells st l1 a b l2 :
  NoDup (id <$> cells st) → cells st = l1 ++ a :: b :: l2 →
  cells (moveCell (id a) down st) = l1 ++ b :: a :: l2.
Proof.
  intros Hnd Hc. unfold moveCell.
  rewrite (list_find_NoDup (cells st) (length l1) a Hnd).
  2:{ rewrite Hc. by apply list_lookup_middle. }
  cbv zeta. rewrite Hc at 1. rewrite length_app. cbn [length].
  replace (Nat.leb (length l1 + S (S (length l2))) (S (length l1))) with false
    by (symmetry; apply Nat.leb_gt; lia).
  cbn [set_cells cells]. rewrite Hc, delete_middle.
  replace (l1 ++ b :: l2) with ((l1 ++ [b]) ++ l2) by (by rewrite <- app_assoc).
  replace (S (length l1)) with (length (l1 ++ [b])) by (rewrite length_app; cbn; lia).
  rewrite splice_insert_length. by rewrite <- app_assoc.
Qed.

(** X8.  When no id occurs twice, moving a cell up, or the cell before it
    down, swaps the two and keeps every other cell in place; moving the
    first cell up or the last cell down changes nothing. *)
Theorem moveCell_swaps st l1 a b l2 :
  NoDup (id <$> cells st) →
  cells st = l1 ++ a :: b :: l2 →
  cells (moveCell (id b) up st) = l1 ++ b :: a :: l2 ∧
  cells (moveCell (id a) down st) = l1 ++ b :: a :: l2 ∧
  (l1 = [] → moveCell (id a) up st = st) ∧
  (l2 = [] → moveCell (id b) down st = st).
Proof.
  intros Hnd Hc. split_and!.
  - by apply moveCell_up_cells.
  - by apply moveCell_down_cells.
  - intros ->. unfold moveCell.
    rewrite (list_find_NoDup (cells st) 0 a Hnd); [done|by rewrite Hc].
  - intros ->. unfold moveCell.
    rewrite (list_find_NoDup (cells st) (S (length l1)) b Hnd).
    2:{ rewrite Hc. replace (l1 ++ [a; b]) with ((l1 ++ [a]) ++ b :: []) by (by rewrite <- app_assoc).
        replace (S (length l1)) with (length (l1 ++ [a])) by (rewrite length_app; cbn; lia).
        by apply list_lookup_middle. }
    cbv zeta. rewrite Hc, length_app. cbn [length].
    replace (Nat.leb (length l1 + 2) (S (S (length l1)))) with true; [done|].
    symmetry. apply Nat.leb_le. lia.
Qed.

Lemma moveCell_swaps_witness :
  cells (moveCell (cell_name 1) up two_cells) = [second_cell; first_cell] ∧
  cells (moveCell (cell_name 0) down two_cells) = [second_cell; first_cell] ∧
  moveCell (cell_name 0) up two_cells = two_cells ∧
  moveCell (cell_name 1) down two_cells = two_cells.
Proof.
  destruct (moveCell_swaps two_cells [] first_cell second_cell [])
    as (H1 & H2 & H3 & H4); [apply valid_two_cells|reflexivity|].
  split_and!; [exact H1|exact H2|exact (H3 eq_refl)|exact (H4 eq_refl)].
Defined.

Lemma set_cells_eq st cs : cells st = cs → set_cells (λ _, cs) st = st.
Proof. intros <-. by destruct st. Qed.

(** X9.  When no id occurs twice, moving a cell up and then down again,
    or down and then up again, gives back the store as it was. *)
Theorem moveCell_up_down st l1 a b l2 :
  NoDup (id <$> cells st) →
  cells st = l1 ++ a :: b :: l2 →
  moveCell (id b) down (moveCell (id b) up st) = st ∧
  moveCell (id a) up (moveCell (id a) down st) = st.
Proof.
  intros Hnd Hc.
  assert (∀ i d st0, cellCounter (moveCell i d st0) = cellCounter st0 ∧
                     monacoInstances (moveCell i d st0) = monacoInstances st0 ∧
                     cellClipboard (moveCell i d st0) = cellClipboard st0 ∧
                     focusedCellId (moveCell i d st0) = focusedCellId st0 ∧
                     attached (moveCell i d st0) = attached st0 ∧
                     timeouts (moveCell i d st0) = timeouts st0) as Hframe.
  { intros i d st0. unfold moveCell.
    destruct (list_find _ (cells st0)) as [[k c]|]; [|done].
    destruct d, k; try done; by destruct (Nat.leb _ _). }
  assert (∀ s1 s2 : Notebook,
            cells s1 = cells s2 → cellCounter s1 = cellCounter s2 →
            monacoInstances s1 = monacoInstances s2 → cellClipboard s1 = cellClipboard s2 →
            focusedCellId s1 = focusedCellId s2 → attached s1 = attached s2 →
            timeouts s1 = timeouts s2 → s1 = s2) as Hext.
  { intros [] []; cbn; by intros -> -> -> -> -> -> ->. }
  pose proof (moveCell_up_cells st l1 a b l2 Hnd Hc) as Hup.
  pose proof (moveCell_down_cells st l1 a b l2 Hnd Hc) as Hdown.
  assert (NoDup (id <$> l1 ++ b :: a :: l2)) as Hnd'.
  { rewrite Hc in Hnd. revert Hnd. apply NoDup_Permutation_proper, fmap_Permutation.
    apply Permutation_app_head, perm_swap. }
  split.
  - destruct (Hframe (id b) up st) as (H1 & H2 & H3 & H4 & H5 & H6).
    destruct (Hframe (id b) down (moveCell (id b) up st)) as (G1 & G2 & G3 & G4 & G5 & G6).
    apply Hext; try congruence.
    rewrite (moveCell_down_cells _ l1 b a l2); [by rewrite Hc|by rewrite Hup|done].
  - destruct (Hframe (id a) down st) as (H1 & H2 & H3 & H4 & H5 & H6).
    destruct (Hframe (id a) up (moveCell (id a) down st)) as (G1 & G2 & G3 & G4 & G5 & G6).
    apply Hext; try congruence.
    rewrite (moveCell_up_cells _ l1 b a l2); [by rewrite Hc|by rewrite Hdown|done].
Qed.

Lemma moveCell_up_down_witness :
  moveCell (cell_name 1) down (moveCell (cell_name 1) up two_cells) = two_cells ∧
  moveCell (cell_name 0) up (moveCell (cell_name 0) down two_cells) = two_cells.
Proof.
  apply (moveCell_up_down two_cells [] first_cell second_cell []);
    [apply valid_two_cells|reflexivity].
Defined.

Lemma valid_truthy st c : valid st → c ∈ cells st → truthy (id c) = true.
Proof. intros [_ Hids] Hc. by destruct (Hids c Hc) as (n & _ & ->). Qed.

(** What [getFocusedCell] leaves behind when it finds a cell. *)
Lemma getFocusedCell_found st c :
  valid st → fst (getFocusedCell st) = Some c →
  find_cell (id c) (cells st) = Some c ∧
  recorded_focus (snd (getFocusedCell st)) = Some (id c) ∧
  cells (snd (getFocusedCell st)) = cells st ∧
  monacoInstances (snd (getFocusedCell st)) = monacoInstances st ∧
  cellClipboard (snd (getFocusedCell st)) = cellClipboard st ∧
  attached (snd (getFocusedCell st)) = attached st ∧
  cellCounter (snd (getFocusedCell st)) = cellCounter st ∧
  timeouts (snd (getFocusedCell st)) = timeouts st.
Proof.
  intros Hv. unfold getFocusedCell.
  destruct (recorded_focus st) as [f|] eqn:Hf.
  - cbn [fst snd]. intros Hc. destruct (find_cell_Some_id _ _ _ Hc) as [<- _].
    by rewrite Hf.
  - destruct (list_find _ (monacoInstances st)) as [[? [cellId ?]]|].
    + cbn [fst snd]. intros Hc. destruct (find_cell_Some_id _ _ _ Hc) as [<- Hin].
      split; [done|]. split; [|done].
      unfold recorded_focus. cbn [focusedCellId set_focusedCellId].
      by rewrite (valid_truthy st c Hv Hin).
    + destruct (cells st) as [|d l] eqn:E; [done|]. cbn [fst snd]. intros [= ->].
      split; [rewrite find_cell_cons; by rewrite decide_True|].
      split; [|by split].
      unfold recorded_focus. cbn [focusedCellId set_focusedCellId].
      rewrite (valid_truthy st c Hv); [done|]. rewrite E. left.
Qed.

Lemma getFocusedCell_recorded_eq st f :
  recorded_focus st = Some f → getFocusedCell st = (find_cell f (cells st), st).
Proof. unfold getFocusedCell. by intros ->. Qed.

(** X10.  Copy then paste in a valid store: the copy is inserted right
    after the focused cell, under a fresh id, with the kind and the outputs
    of the original, not marked as executed, and with an editor that holds
    the text of the original; the clipboard keeps the original, also after a
    second paste. *)
Theorem copy_paste st c :
  valid st → fst (getFocusedCell st) = Some c →
  ∃ k new,
    cells st !! k = Some c ∧
    cells (pasteCell (copyCell st)) = take (S k) (cells st) ++ new :: drop (S k) (cells st) ∧
    id new = cell_name (cellCounter st) ∧ type new = type c ∧ outputs new = outputs c ∧
    isExecuted new = None ∧
    editor_of (id new) (monacoInstances (pasteCell (copyCell st))) =
      Some (mkEditor (code_of (id c) st) false) ∧
    cellClipboard (pasteCell (copyCell st)) = Some (c, code_of (id c) st) ∧
    cellClipboard (pasteCell (pasteCell (copyCell st))) = Some (c, code_of (id c) st).
Proof.
  intros Hv Hc.
  destruct (getFocusedCell_found st c Hv Hc) as (Hfind & Hrec & Hcells & Hmon & Hclip & Hatt & Hcnt & Htm).
  destruct (find_cell_lookup _ _ _ Hfind) as (k & Hk & Hidx).
  assert (copyCell st = set_cellClipboard (Some (c, code_of (id c) st)) (snd (getFocusedCell st))) as Hcopy.
  { unfold copyCell. destruct (getFocusedCell st) as [o st1]. cbn [fst snd] in *. subst o.
    unfold code_of. by rewrite Hmon. }
  set (st2 := copyCell st) in *.
  assert (recorded_focus st2 = Some (id c)) as Hrec2 by (by rewrite Hcopy).
  assert (cells st2 = cells st) as Hcells2 by (by rewrite Hcopy).
  assert (pasteCell st2 =
          addCell (code_of (id c) st) (type c)
            (bool_decide (type c = md) && bool_decide (mode c = Some render))
            (outputs c) (Some (S k)) st2) as Hpaste.
  { unfold pasteCell. rewrite Hcopy at 1. cbn [cellClipboard set_cellClipboard].
    rewrite (getFocusedCell_recorded_eq st2 (id c) Hrec2), Hcells2, Hfind, Hidx. done. }
  eexists k, _. split; [exact Hk|]. rewrite Hpaste. cbn [addCell cells monacoInstances cellClipboard].
  rewrite Hcells2. unfold splice_insert. split; [reflexivity|].
  cbn [id type outputs isExecuted].
  assert (cellCounter st2 = cellCounter st) as -> by (by rewrite Hcopy).
  split_and!; try done.
  - apply editor_of_set.
  - by rewrite Hcopy.
  - unfold pasteCell. rewrite <- Hpaste.
    assert (cellClipboard (pasteCell st2) = Some (c, code_of (id c) st)) as Hcl.
    { rewrite Hpaste. cbn [addCell cellClipboard]. by rewrite Hcopy. }
    rewrite Hcl. destruct (getFocusedCell (pasteCell st2)) as [o st3] eqn:E.
    pose proof (getFocusedCell_frame (pasteCell st2)) as [_ Hfr]. rewrite E in Hfr.
    cbn [snd] in Hfr. cbn [addCell cellClipboard]. by rewrite Hfr.
Qed.

Lemma copy_paste_witness :
  ∃ k new,
    cells two_cells !! k = Some first_cell ∧
    cells (pasteCell (copyCell two_cells)) =
      take (S k) (cells two_cells) ++ new :: drop (S k) (cells two_cells) ∧
    id new = cell_name 2 ∧ type new = js ∧ outputs new = [] ∧
    isExecuted new = None ∧
    editor_of (id new) (monacoInstances (pasteCell (copyCell two_cells))) =
      Some (mkEditor [] false) ∧
    cellClipboard (pasteCell (copyCell two_cells)) = Some (first_cell, []) ∧
    cellClipboard (pasteCell (pasteCell (copyCell two_cells))) = Some (first_cell, []).
Proof.
  apply (copy_paste two_cells first_cell); [apply valid_two_cells|reflexivity].
Defined.

(** X11.  Cut then paste in a valid store: the cut returns, takes the
    focused cell out and keeps it on the clipboard; the paste that follows
    does not put it back where it was but appends the copy at the end of the
    store, because the recorded focus still names the cell that is gone. *)
Theorem cut_paste st c :
  valid st → fst (getFocusedCell st) = Some c →
  ∃ k new,
    cells st !! k = Some c ∧
    fst (cutCell st) = Returned ∧
    cells (snd (cutCell st)) = delete k (cells st) ∧
    cellClipboard (snd (cutCell st)) = Some (c, code_of (id c) st) ∧
    cells (pasteCell (snd (cutCell st))) = delete k (cells st) ++ [new] ∧
    id new = cell_name (cellCounter st) ∧ type new = type c ∧ outputs new = outputs c ∧
    editor_of (id new) (monacoInstances (pasteCell (snd (cutCell st)))) =
      Some (mkEditor (code_of (id c) st) false).
Proof.
  intros Hv Hc.
  destruct (getFocusedCell_found st c Hv Hc) as (Hfind & Hrec & Hcells & Hmon & Hclip & Hatt & Hcnt & Htm).
  destruct (find_cell_lookup _ _ _ Hfind) as (k & Hk & Hidx).
  assert (cutCell st = deleteCell (id c)
            (set_cellClipboard (Some (c, code_of (id c) st)) (snd (getFocusedCell st)))) as Hcut.
  { unfold cutCell. destruct (getFocusedCell st) as [o st1]. cbn [fst snd] in *. subst o.
    unfold code_of. by rewrite Hmon. }
  assert (fst (cutCell st) = Returned) as Hret.
  { rewrite Hcut, deleteCell_completion.
    destruct (proj2 Hv c) as (n & _ & ->).
    { apply list_elem_of_lookup. eauto. }
    by rewrite inherited_cell_name. }
  set (st2 := snd (cutCell st)) in *.
  assert (st2 = snd (deleteCell (id c)
            (set_cellClipboard (Some (c, code_of (id c) st)) (snd (getFocusedCell st))))) as Hst2.
  { unfold st2. by rewrite Hcut. }
  rewrite deleteCell_state in Hst2.
  assert (cells st2 = delete k (cells st)) as Hcells2.
  { rewrite Hst2. cbn [cells set_cellClipboard]. by rewrite Hcells, Hidx. }
  assert (recorded_focus st2 = Some (id c)) as Hrec2 by (by rewrite Hst2).
  assert (find_cell (id c) (cells st2) = None) as Hgone.
  { rewrite Hcells2. apply find_cell_None. intros d Hd.
    by eapply delete_other_ids; [apply Hv|..]. }
  assert (cellClipboard st2 = Some (c, code_of (id c) st)) as Hclip2 by (by rewrite Hst2).
  assert (pasteCell st2 =
          addCell (code_of (id c) st) (type c)
            (bool_decide (type c = md) && bool_decide (mode c = Some render))
            (outputs c) (Some (length (cells st2))) st2) as Hpaste.
  { unfold pasteCell. rewrite Hclip2.
    by rewrite (getFocusedCell_recorded_eq st2 (id c) Hrec2), Hgone. }
  eexists k, _. split; [exact Hk|]. split; [exact Hret|].
  split; [exact Hcells2|]. split; [exact Hclip2|].
  rewrite Hpaste. cbn [addCell cells monacoInstances].
  unfold splice_insert. rewrite take_ge, drop_ge by lia. rewrite Hcells2.
  split; [reflexivity|]. cbn [id type outputs].
  assert (cellCounter st2 = cellCounter st) as -> by (by rewrite Hst2).
  split_and!; try done. apply editor_of_set.
Qed.

Lemma cut_paste_witness :
  ∃ k new,
    cells two_cells !! k = Some first_cell ∧
    fst (cutCell two_cells) = Returned ∧
    cells (snd (cutCell two_cells)) = delete k (cells two_cells) ∧
    cellClipboard (snd (cutCell two_cells)) = Some (first_cell, []) ∧
    cells (pasteCell (snd (cutCell two_cells))) = delete k (cells two_cells) ++ [new] ∧
    id new = cell_name 2 ∧ type new = js ∧ outputs new = [] ∧
    editor_of (id new) (monacoInstances (pasteCell (snd (cutCell two_cells)))) =
      Some (mkEditor [] false).
Proof.
  apply (cut_paste two_cells first_cell); [apply valid_two_cells|reflexivity].
Defined.

(** X12.  In a valid store with a focused cell, [insertCellBelow] puts an
    empty cell of the kind asked for right after the focused cell and
    [insertCellAbove] right before it, under a fresh id and with an empty
    editor. *)
Theorem insert_at_focus ty st c :
  valid st → fst (getFocusedCell st) = Some c →
  ∃ k new,
    cells st !! k = Some c ∧
    id new = cell_name (cellCounter st) ∧ type new = ty ∧ outputs new = [] ∧
    cells (insertCellBelow ty st) = take (S k) (cells st) ++ new :: drop (S k) (cells st) ∧
    cells (insertCellAbove ty st) = take k (cells st) ++ new :: drop k (cells st) ∧
    editor_of (id new) (monacoInstances (insertCellBelow ty st)) = Some (mkEditor [] false) ∧
    editor_of (id new) (monacoInstances (insertCellAbove ty st)) = Some (mkEditor [] false).
Proof.
  intros Hv Hc.
  destruct (getFocusedCell_found st c Hv Hc) as (Hfind & Hrec & Hcells & Hmon & Hclip & Hatt & Hcnt & Htm).
  destruct (find_cell_lookup _ _ _ Hfind) as (k & Hk & Hidx).
  unfold insertCellBelow, insertCellAbove.
  destruct (getFocusedCell st) as [o st1]. cbn [fst snd] in *. subst o.
  rewrite Hcells, Hidx. cbn [addCell cells monacoInstances]. rewrite Hcells, Hcnt.
  exists k, (mkCell (cell_name (cellCounter st)) ty
               (match ty with md => Some edit | js => None end) []
               (Some (match ty with
                      | js => negb (Nat.eqb (length (@nil Output)) 0)
                      | md => false
                      end)) None None).
  split; [exact Hk|]. unfold splice_insert.
  split_and!; try reflexivity; apply editor_of_set.
Qed.

Lemma insert_at_focus_witness :
  ∃ k new,
    cells two_cells !! k = Some first_cell ∧
    id new = cell_name 2 ∧ type new = md ∧ outputs new = [] ∧
    cells (insertCellBelow md two_cells) =
      take (S k) (cells two_cells) ++ new :: drop (S k) (cells two_cells) ∧
    cells (insertCellAbove md two_cells) =
      take k (cells two_cells) ++ new :: drop k (cells two_cells) ∧
    editor_of (id new) (monacoInstances (insertCellBelow md two_cells)) =
      Some (mkEditor [] false) ∧
    editor_of (id new) (monacoInstances (insertCellAbove md two_cells)) =
      Some (mkEditor [] false).
Proof.
  apply (insert_at_focus md two_cells first_cell); [apply valid_two_cells|reflexivity].
Defined.

(** X13.  When [getFocusedCell] finds no cell, [insertCellBelow] appends
    the new cell at the end and [insertCellAbove] puts it in front. *)
Theorem insert_without_focus ty st :
  fst (getFocusedCell st) = None →
  ∃ new,
    id new = cell_name (cellCounter st) ∧ type new = ty ∧
    cells (insertCellBelow ty st) = cells st ++ [new] ∧
    cells (insertCellAbove ty st) = new :: cells st.
Proof.
  intros Hc. destruct (getFocusedCell_frame st) as [Hcells _].
  assert (cellCounter (snd (getFocusedCell st)) = cellCounter st) as Hcnt.
  { unfold getFocusedCell. destruct (recorded_focus st); [done|].
    destruct (list_find _ (monacoInstances st)) as [[? [? ?]]|]; [done|].
    by destruct (cells st). }
  unfold insertCellBelow, insertCellAbove.
  destruct (getFocusedCell st) as [o st1]. cbn [fst snd] in *. subst o.
  cbn [addCell cells]. rewrite Hcells, Hcnt.
  exists (mkCell (cell_name (cellCounter st)) ty
            (match ty with md => Some edit | js => None end) []
            (Some (match ty with
                   | js => negb (Nat.eqb (length (@nil Output)) 0)
                   | md => false
                   end)) None None).
  unfold splice_insert.
  rewrite take_ge, drop_ge by lia. rewrite take_0, drop_0. split_and!; reflexivity.
Qed.

Lemma insert_without_focus_witness :
  ∃ new,
    id new = cell_name 2 ∧ type new = js ∧
    cells (insertCellBelow js stale_focus) = cells stale_focus ++ [new] ∧
    cells (insertCellAbove js stale_focus) = new :: cells stale_focus.
Proof. apply (insert_without_focus js stale_focus). reflexivity. Defined.

(** X14.  A drag between two positions of the store leaves no empty slot:
    the dragged cell ends at the new index, the other cells keep their
    order, and the cells are the same as before up to order. *)
Theorem drag_in_range (o n : nat) (cs : list Cell) (c : Cell) :
  cs !! o = Some c → n < length cs →
  ∃ cs', onEnd (Some o) (Some n) (to_slots cs) = to_slots cs' ∧
         cs' !! n = Some c ∧ delete n cs' = delete o cs ∧ cs' ≡ₚ cs.
Proof.
  intros Hc Hn. destruct (decide (o = n)) as [->|Hne].
  - exists cs. by rewrite onEnd_same.
  - destruct (onEnd_in_range o n cs c Hc Hne) as [-> _].
    exists (splice_insert n c (delete o cs)). split; [done|].
    assert (n `min` length (delete o cs) = n) as Hmin.
    { rewrite length_delete by eauto. lia. }
    destruct (splice_insert_lookup n c (delete o cs)) as [H1 H2].
    rewrite Hmin in H1, H2. split_and!; [done..|]. by apply move_Permutation.
Qed.

Lemma drag_in_range_witness :
  ∃ cs', onEnd (Some 0) (Some 1) (to_slots (cells two_cells)) = to_slots cs' ∧
         cs' !! 1 = Some first_cell ∧ delete 1 cs' = delete 0 (cells two_cells) ∧
         cs' ≡ₚ cells two_cells.
Proof. apply (drag_in_range 0 1 (cells two_cells) first_cell); [reflexivity|cbn; lia]. Defined.

(** A run of five operations from the empty store. *)
Lemma store_invariant_witness :
  ∃ st',
    run [Insert [] js false [] None; Insert [] md false [] (Some 0);
         Reorder (Some 1) (Some 0); Move (cell_name 0) down; Delete (cell_name 1)]
        empty_notebook = Some st' ∧
    NoDup (id <$> cells st') ∧
    length (cells st') +
      deleted [Insert [] js false [] None; Insert [] md false [] (Some 0);
               Reorder (Some 1) (Some 0); Move (cell_name 0) down; Delete (cell_name 1)]
              empty_notebook =
    length (cells empty_notebook) +
      created [Insert [] js false [] None; Insert [] md false [] (Some 0);
               Reorder (Some 1) (Some 0); Move (cell_name 0) down; Delete (cell_name 1)].
Proof.
  apply (store_invariant _ empty_notebook).
  - apply valid_empty.
  - cbn. repeat split. lia.
Defined.

End StoreMore.

(** ** Engine: one run *)

Module EngineMore.
Import Store Staleness Engine StoreFacts StalenessFacts EngineFacts Examples MoreExamples StoreMore.

Section WithRuntime.
Context {value : Type}.
Variable AsyncFunction : jsstring → jsstring + Script value.



(** X18.  Running a text cell in edit mode renders it; running it again
    brings it back to edit mode, hides its output area and gives it the
    focus.  Neither run touches the scope or any other cell. *)
Theorem runCell_text_toggle (cellId : jsstring) (st : Notebook)
    (scope : Scope value) c :
  find_cell cellId (cells st) = Some c →
  type c = md → mode c = Some edit →
  is_Some (editor_of cellId (monacoInstances st)) →
  cellId ∈ attached st →
  ∃ st1 st2,
    runCell AsyncFunction cellId st scope = (Returned, st1, scope) ∧
    find_cell cellId (cells st1) = Some (set_mode render true c) ∧
    runCell AsyncFunction cellId st1 scope = (Returned, st2, scope) ∧
    find_cell cellId (cells st2) = Some (set_mode edit false c) ∧
    focusedCellId st2 = Some cellId ∧
    ∀ j, j ≠ cellId → find_cell j (cells st2) = find_cell j (cells st).
Proof.
  intros Hc Hty Hmode [ed Hed] Hatt.
  assert (∀ m v c, id (set_mode m v c) = id c) as Hid by done.
  eexists _, _. split.
  { unfold runCell. rewrite Hc, Hed. rewrite bool_decide_eq_true_2 by done.
    cbn [negb]. rewrite Hty, Hmode. rewrite bool_decide_eq_true_2 by done. reflexivity. }
  cbn [set_cells cells]. rewrite find_cell_update_eq, Hc by done.
  split; [done|]. split.
  { unfold runCell. cbn [set_cells cells monacoInstances attached].
    rewrite find_cell_update_eq, Hc, Hed by done. cbn [fmap option_fmap option_map].
    rewrite bool_decide_eq_true_2 by done. cbn [negb type set_mode mode].
    rewrite Hty. rewrite bool_decide_eq_false_2 by done. reflexivity. }
  unfold onDidFocusEditorText. cbn [set_cells cells monacoInstances].
  rewrite Hed. cbn [set_focusedCellId set_monacoInstances cells focusedCellId].
  unfold set_cells. cbn [cells].
  rewrite update_cell_compose by done. rewrite find_cell_update_eq, Hc by done.
  split; [done|]. split; [done|].
  intros j Hj. rewrite find_cell_update by done. by rewrite decide_False.
Qed.

End WithRuntime.

(** X16.  A change of the text of an editor never changes the outputs of
    any cell; when the new text is the text of the last run of an executed
    cell, the cells stay exactly as they were. *)
Theorem contentChanged_keeps (cellId text : jsstring) (st : Notebook) :
  (∀ j, outputs <$> find_cell j (cells (contentChanged cellId text st)) =
        outputs <$> find_cell j (cells st)) ∧
  (∀ cell, find_cell cellId (cells st) = Some cell →
           isExecuted cell = Some true → lastExecutedContent cell = Some text →
           cells (contentChanged cellId text st) = cells st).
Proof.
  unfold contentChanged.
  destruct (editor_of cellId (monacoInstances st)) as [ed|] eqn:Hed; [|done].
  unfold onDidChangeModelContent. cbn [monacoInstances set_monacoInstances].
  rewrite editor_of_set. cbn [getValue].
  unfold checkContentChanged, markCellAsUnexecuted. cbn [cells set_monacoInstances attached].
  split.
  - intros j. destruct (find_cell cellId (cells st)) as [cell|] eqn:Hc; [|done].
    destruct (_ || _); [|done]. destruct (bool_decide _); [|done].
    cbn [set_cells cells]. rewrite find_cell_update by done.
    destruct (decide (cellId = j)); [|done].
    change (cells (set_monacoInstances _ st)) with (cells st).
    by destruct (find_cell j (cells st)).
  - intros cell Hc He Hl. rewrite Hc, He, Hl.
    by rewrite !bool_decide_eq_true_2 by done.
Qed.

Lemma contentChanged_keeps_witness :
  cells (contentChanged (cell_name 0) (lit "console.log(1+1)") executed_doc) =
    cells executed_doc.
Proof.
  eapply (proj2 (contentChanged_keeps (cell_name 0) (lit "console.log(1+1)") executed_doc));
    reflexivity.
Defined.



Lemma runCell_text_toggle_witness :
  ∃ st1 st2,
    runCell runtime (cell_name 0) text_cell [] = (Returned, st1, []) ∧
    find_cell (cell_name 0) (cells st1) =
      Some (set_mode render true (mkCell (cell_name 0) md (Some edit) [] (Some false) None None)) ∧
    runCell runtime (cell_name 0) st1 [] = (Returned, st2, []) ∧
    find_cell (cell_name 0) (cells st2) =
      Some (set_mode edit false (mkCell (cell_name 0) md (Some edit) [] (Some false) None None)) ∧
    focusedCellId st2 = Some (cell_name 0) ∧
    ∀ j, j ≠ cell_name 0 → find_cell j (cells st2) = find_cell j (cells text_cell).
Proof.
  apply (runCell_text_toggle runtime (cell_name 0) text_cell []
           (mkCell (cell_name 0) md (Some edit) [] (Some false) None None)).
  - reflexivity.
  - reflexivity.
  - reflexivity.
  - vm_compute. eauto.
  - apply (bool_decide_unpack _). vm_compute. exact I.
Defined.

End EngineMore.

(** ** Engine: running every cell *)

Module RunAllFacts.
Import Store Staleness Engine RunAll Trace StoreFacts StalenessFacts TraceFacts EngineFacts Examples.
Import MoreExamples StoreMore EngineMore Frames.



Section WithRuntime.
Context {value : Type}.
Variable AsyncFunction : jsstring → jsstring + Script value.










End WithRuntime.







End RunAllFacts.

(** ** Loader *)

Module LoaderFacts.
Import Parser RoundTrip Store Staleness Engine RunAll Loader Trace StoreFacts TraceFacts EngineFacts.
Import Examples StoreMore EngineMore NewCell Shapes ParserMore.

Lemma editor_set_fresh cellId e m :
  (∀ p, p ∈ m → fst p ≠ cellId) → editor_set cellId e m = m ++ [(cellId, e)].
Proof.
  intros H. unfold editor_set.
  destruct (list_find _ m) as [[i p]|] eqn:E; [|done].
  apply list_find_Some in E as (Hp & Heq & _).
  exfalso. eapply H; [|exact Heq]. by eapply list_elem_of_lookup_2.
Qed.

(** The store after [addCell] ran for each parsed cell in turn, from the
    empty store. *)
Lemma load_fold ds :
  let st := fold_left addParsed ds empty_notebook in
  cellCounter st = length ds ∧
  cells st = imap loaded_cell ds ∧
  monacoInstances st = imap (λ i d, (cell_name i, mkEditor (cd_code d) false)) ds ∧
  (∀ i, i < length ds → cell_name i ∈ attached st) ∧
  timeouts st = mjoin (imap loaded_timer ds).
Proof.
  induction ds as [|d ds IH] using rev_ind.
  - cbn. split_and!; try done. intros; lia.
  - cbv zeta in *. rewrite fold_left_app. cbn [fold_left].
    set (st := fold_left addParsed ds empty_notebook) in *.
    destruct IH as (Hn & Hcs & Hmon & Hatt & Ht).
    rewrite length_app, !imap_app. cbn [length imap]. rewrite !Nat.add_0_r.
    unfold addParsed, addCell. cbn [cellCounter cells monacoInstances attached timeouts].
    rewrite Hn. split_and!.
    + lia.
    + by rewrite Hcs.
    + rewrite editor_set_fresh, Hmon; [done|].
      intros p Hp. rewrite Hmon in Hp. apply list_elem_of_lookup_1 in Hp as [i Hi].
      rewrite list_lookup_imap in Hi. destruct (ds !! i) eqn:Hd; [|done].
      injection Hi as <-. cbn. intros Heq%cell_name_inj.
      apply lookup_lt_Some in Hd. lia.
    + intros i Hi. destruct (decide (i = length ds)) as [->|Hne].
      * apply elem_of_union_l, elem_of_singleton. done.
      * apply elem_of_union_r, Hatt. lia.
    + rewrite join_app, Ht. cbn [mjoin list_join]. unfold loaded_timer. rewrite app_nil_r.
      destruct (cd_type d); [by rewrite app_nil_r|].
      destruct (bool_decide _); [done|by rewrite app_nil_r].
Qed.

Lemma update_cell_NoDup_fmap (t : jsstring) (F : Cell → Cell) (l : list Cell) :
  NoDup (id <$> l) →
  update_cell t F l = (λ c, if decide (id c = t) then F c else c) <$> l.
Proof.
  induction l as [|c l IH]; [done|]. rewrite fmap_cons, NoDup_cons. intros [Hc Hl].
  rewrite update_cell_cons, fmap_cons. destruct (decide (id c = t)) as [Heq|Hne].
  - f_equal. symmetry. rewrite <- (list_fmap_id l) at 2. apply list_fmap_ext.
    intros i d Hd. rewrite decide_False; [done|].
    intros Hd'. apply Hc. rewrite Heq, <- Hd'. apply list_elem_of_fmap.
    exists d. split; [done|]. by eapply list_elem_of_lookup_2.
  - by rewrite IH.
Qed.

Lemma timers_sublist ds :
  mjoin (imap loaded_timer ds) `sublist_of` cell_name <$> seq 0 (length ds).
Proof.
  induction ds as [|d ds IH] using rev_ind; [done|].
  rewrite imap_app, join_app, length_app, seq_app, fmap_app. apply sublist_app; [done|].
  cbn. rewrite Nat.add_0_r, app_nil_r. unfold loaded_timer.
  destruct (cd_type d); [apply sublist_nil_l|].
  destruct (bool_decide _); [done|apply sublist_nil_l].
Qed.

Lemma timers_NoDup ds : NoDup (mjoin (imap loaded_timer ds)).
Proof.
  eapply sublist_NoDup; [|apply timers_sublist].
  apply NoDup_fmap_2; [|apply NoDup_seq]. intros n m. apply cell_name_inj.
Qed.

Lemma timers_elem ds i d :
  ds !! i = Some d →
  cell_name i ∈ mjoin (imap loaded_timer ds) ↔ cd_type d = md ∧ cd_mode d = Some render.
Proof.
  intros Hd. rewrite list_elem_of_join. split.
  - intros (l & Hl & Hin). apply elem_of_lookup_imap in Hin as (j & e & -> & He).
    unfold loaded_timer in Hl. destruct (cd_type e) eqn:Hty; [by apply elem_of_nil in Hl|].
    destruct (bool_decide _) eqn:Hm; [|by apply elem_of_nil in Hl].
    apply list_elem_of_singleton, cell_name_inj in Hl as ->.
    assert (e = d) as -> by congruence. split; [done|]. by apply bool_decide_eq_true in Hm.
  - intros [Hty Hm]. exists [cell_name i]. split; [apply list_elem_of_singleton; done|].
    apply elem_of_lookup_imap. exists i, d. split; [|done].
    unfold loaded_timer. by rewrite Hty, bool_decide_eq_true_2.
Qed.

Lemma editor_of_loaded ds i d :
  ds !! i = Some d →
  editor_of (cell_name i) (imap (λ i d, (cell_name i, mkEditor (cd_code d) false)) ds) =
    Some (mkEditor (cd_code d) false).
Proof.
  intros Hd. unfold editor_of.
  assert (list_find (λ p : jsstring * Editor, fst p = cell_name i)
            (imap (λ i d, (cell_name i, mkEditor (cd_code d) false)) ds) =
          Some (i, (cell_name i, mkEditor (cd_code d) false))) as ->; [|done].
  apply list_find_Some. split_and!.
  - by rewrite list_lookup_imap, Hd.
  - done.
  - intros j y Hy Hj Heq. rewrite list_lookup_imap in Hy.
    destruct (ds !! j); [|done]. injection Hy as <-. cbn in Heq.
    apply cell_name_inj in Heq. lia.
Qed.

Section WithRuntime.
Context {value : Type}.
Variable AsyncFunction : jsstring → jsstring + Script value.

(** Timers for text cells in edit mode, each set once: every one of them
    renders its cell. *)
Lemma fire_fold (ts : list jsstring) :
  NoDup ts →
  ∀ (st : Notebook) (scope : Scope value),
    NoDup (id <$> cells st) →
    (∀ t, t ∈ ts → ∃ c, c ∈ cells st ∧ id c = t ∧ type c = md ∧ mode c = Some edit ∧
                        t ∈ attached st ∧ is_Some (editor_of t (monacoInstances st))) →
    fold_left
      (λ acc cellId,
         let '(_, st', scope') := runCell AsyncFunction cellId (fst acc) (snd acc) in
         (st', scope'))
      ts (st, scope) =
    (set_cells (fmap (λ c, if decide (id c ∈ ts) then set_mode render true c else c)) st,
     scope).
Proof.
  induction 1 as [|t ts Ht Hts IH]; intros st scope Hnd Hall.
  - cbn [fold_left]. f_equal. destruct st as [n cs m cb f a t]. unfold set_cells. cbn. f_equal.
    rewrite <- (list_fmap_id cs) at 1. apply list_fmap_ext. intros i c _.
    rewrite decide_False; [done|]. apply not_elem_of_nil.
  - cbn [fold_left fst snd].
    destruct (Hall t) as (c & Hc & Hid & Hty & Hmode & Hatt & [e He]); [left|].
    apply list_elem_of_lookup_1 in Hc as [k Hk].
    destruct (find_cell_NoDup (cells st) k c Hnd Hk) as [Hfind _]. rewrite Hid in Hfind.
    assert (runCell AsyncFunction t st scope =
            (Returned, set_cells (update_cell t (set_mode render true)) st, scope)) as ->.
    { unfold runCell. rewrite Hfind, He, bool_decide_eq_true_2 by done. cbn [negb].
      by rewrite Hty, bool_decide_eq_true_2. }
    rewrite IH.
    + f_equal. unfold set_cells. cbn [cells cellCounter monacoInstances cellClipboard
        focusedCellId attached timeouts]. f_equal.
      rewrite update_cell_NoDup_fmap by done. rewrite <- list_fmap_compose.
      apply list_fmap_ext. intros i d _. cbn.
      destruct (decide (id d = t)) as [Hd|Hd].
      * rewrite (decide_True (P := id d ∈ t :: ts)) by (rewrite Hd; left).
        rewrite decide_False; [done|]. cbn. by rewrite Hd.
      * destruct (decide (id d ∈ ts)) as [Hin|Hin].
        -- by rewrite decide_True by (by right).
        -- rewrite decide_False; [done|]. intros [?|?]%elem_of_cons; done.
    + cbn [set_cells cells]. by rewrite update_cell_fmap_id.
    + intros t' Ht'. destruct (Hall t') as (c' & Hc' & Hid' & Hty' & Hm' & Hatt' & He'); [by right|].
      exists c'. split_and!; try done.
      cbn [set_cells cells]. rewrite update_cell_NoDup_fmap by done.
      apply list_elem_of_fmap. exists c'. split; [|done].
      rewrite decide_False; [done|]. intros Heq. apply Ht. by rewrite <- Heq, Hid'.
Qed.

Lemma loaded_shows (ds : list CellData) (scope : Scope value) :
  Forall data_shape ds →
  let fired := fireTimeouts AsyncFunction (fold_left addParsed ds empty_notebook) scope in
  snd fired = scope ∧
  timeouts (fst fired) = [] ∧
  id <$> cells (fst fired) = cell_name <$> seq 0 (length ds) ∧
  Forall (λ c, isExecuted c = None) (cells (fst fired)) ∧
  (λ doc : list (Cell * jsstring), view_of_cell <$> doc) <$> Store.document (fst fired) = Some (view_of_data <$> ds).
Proof.
  intros Hshape. cbv zeta. unfold fireTimeouts.
  destruct (load_fold ds) as (Hn & Hcs & Hmon & Hatt & Ht). cbv zeta in *.
  set (st := fold_left addParsed ds empty_notebook) in *.
  rewrite fire_fold.
  2:{ rewrite Ht. apply timers_NoDup. }
  2:{ cbn [set_timeouts cells]. rewrite Hcs.
      replace (id <$> imap loaded_cell ds) with (cell_name <$> seq 0 (length ds)).
      - apply NoDup_fmap_2; [|apply NoDup_seq]. intros n m. apply cell_name_inj.
      - apply list_eq. intros i. rewrite !list_lookup_fmap, list_lookup_imap.
        destruct (ds !! i) eqn:Hd.
        + rewrite lookup_seq_lt by (by eapply lookup_lt_Some). done.
        + rewrite lookup_seq_ge by (by apply lookup_ge_None). done. }
  2:{ intros t Hin. rewrite Ht in Hin.
      pose proof Hin as Hin'. apply list_elem_of_join in Hin' as (l & Hl & Hl').
      apply elem_of_lookup_imap in Hl' as (i & d & -> & Hd).
      assert (t = cell_name i) as ->.
      { unfold loaded_timer in Hl. destruct (cd_type d); [by apply elem_of_nil in Hl|].
        destruct (bool_decide _); [|by apply elem_of_nil in Hl].
        by apply list_elem_of_singleton in Hl. }
      destruct (proj1 (timers_elem ds i d Hd) Hin) as [Hty Hm].
      exists (loaded_cell i d). cbn [set_timeouts cells monacoInstances attached].
      split_and!.
      - rewrite Hcs. apply elem_of_lookup_imap. eauto.
      - done.
      - done.
      - unfold loaded_cell, newCellData. cbn. by rewrite Hty.
      - apply Hatt. by eapply lookup_lt_Some.
      - rewrite Hmon, (editor_of_loaded ds i d Hd). eauto. }
  cbn [fst snd].
  set (g := λ c : Cell, if decide (id c ∈ timeouts st) then set_mode render true c else c).
  set (st' := set_cells _ _).
  assert (cells st' = g <$> cells st) as Hcs' by done.
  assert (monacoInstances st' = monacoInstances st) as Hmon' by done.
  assert (timeouts st' = []) as Ht' by done.
  clearbody st'. rewrite Hcs'.
  assert (∀ c, id (g c) = id c) as Hgid by (intros c; unfold g; by destruct (decide _)).
  split; [done|]. split; [done|]. split_and!.
  - rewrite Hcs. apply list_eq. intros i.
    rewrite !list_lookup_fmap, list_lookup_imap.
    destruct (ds !! i) eqn:Hd.
    + rewrite lookup_seq_lt by (by eapply lookup_lt_Some). cbn. by rewrite Hgid.
    + rewrite lookup_seq_ge by (by apply lookup_ge_None). done.
  - rewrite Hcs. apply Forall_fmap, Forall_lookup. intros i c Hc.
    rewrite list_lookup_imap in Hc. destruct (ds !! i); [|done]. injection Hc as <-.
    cbn. unfold g. by destruct (decide _).
  - unfold document. rewrite Hcs', Hmon'.
    assert (mapM (λ cell, (λ editor, (cell, getValue editor)) <$>
                          editor_of (id cell) (monacoInstances st)) (g <$> cells st) =
            Some (imap (λ i d, (g (loaded_cell i d), cd_code d)) ds)) as ->.
    { apply mapM_Some. apply Forall2_same_length_lookup_2.
      - by rewrite Hcs, length_fmap, !length_imap.
      - intros i c p Hc Hp. rewrite Hcs, list_lookup_fmap, list_lookup_imap in Hc.
        rewrite list_lookup_imap in Hp. destruct (ds !! i) as [d|] eqn:Hd; [|done].
        injection Hc as <-. injection Hp as <-.
        rewrite Hgid, Hmon. cbn [loaded_cell newCellData id].
        by rewrite (editor_of_loaded ds i d Hd). }
    cbn. f_equal. apply list_eq. intros i.
    rewrite !list_lookup_fmap, list_lookup_imap.
    destruct (ds !! i) as [d|] eqn:Hd; [|done]. cbn. f_equal.
    unfold view_of_cell, view_of_data. cbn [fst snd].
    pose proof (timers_elem ds i d Hd) as Hel. rewrite <- Ht in Hel.
    rewrite Forall_lookup in Hshape. destruct (Hshape i d Hd) as [_ Hsh].
    unfold g. cbn [loaded_cell newCellData id].
    destruct (decide (cell_name i ∈ timeouts st)) as [Hin|Hin].
    + apply Hel in Hin as [Hty Hm]. cbn. by rewrite Hty, Hm.
    + cbn. destruct (cd_type d) eqn:Hty.
      * destruct Hsh as [-> _]. done.
      * destruct Hsh as [[m Hm] _]. rewrite Hm. destruct m; [done|].
        exfalso. apply Hin, Hel. done.
Qed.

(** X22.  Loading on the empty store, once the timers have fired: the
    store shows the parsed cells in order, each with its kind, text, mode
    and outputs, under the ids [cell0], [cell1] and so on; when the fetch
    fails or nothing is parsed it shows one empty code cell.  No loaded cell
    is marked as executed, no timer is left, and the scope is untouched. *)
Theorem loadNotebook_shows (response : option jsstring) (scope : Scope value) :
  let parsed := from_option parseNotebookFile [] response in
  let shown := match parsed with [] => [mkCellData js [] None (Some [])] | _ => parsed end in
  let fired := fireTimeouts AsyncFunction (loadNotebook response empty_notebook) scope in
  snd fired = scope ∧
  timeouts (fst fired) = [] ∧
  id <$> cells (fst fired) = cell_name <$> seq 0 (length shown) ∧
  Forall (λ c, isExecuted c = None) (cells (fst fired)) ∧
  (λ doc : list (Cell * jsstring), view_of_cell <$> doc) <$> Store.document (fst fired) = Some (view_of_data <$> shown).
Proof.
  intros parsed shown.
  assert (loadNotebook response empty_notebook = fold_left addParsed shown empty_notebook) as ->.
  { unfold shown, parsed, loadNotebook. destruct response as [text|]; [|done].
    cbn [from_option]. by destruct (parseNotebookFile text). }
  apply loaded_shows. unfold shown, parsed.
  destruct response as [text|]; cbn [from_option].
  - pose proof (finish_shape _ (fold_step_shape (split_lines text) init (Forall_nil_2 _)))
      as Hsh.
    unfold shape_state in Hsh. fold (parseNotebookFile text) in Hsh.
    destruct (parseNotebookFile text); [|done].
    repeat constructor. cbn. eauto.
  - repeat constructor. cbn. eauto.
Qed.

End WithRuntime.

End LoaderFacts.

(** ** Address of the notebook *)

Module UrlFacts.
Import Url MoreExamples.

Lemma strip_prefix_app p s : strip_prefix p (p ++ s) = Some s.
Proof. induction p as [|a p IH]; [done|]. cbn. by rewrite N.eqb_refl. Qed.

Lemma strip_prefix_Some p s r : strip_prefix p s = Some r → s = p ++ r.
Proof.
  revert s. induction p as [|a p IH]; intros s; [by intros [= ->]|].
  destruct s as [|b s]; [done|]. cbn.
  destruct (N.eqb_spec a b) as [->|]; [|done]. intros H%IH. by rewrite H.
Qed.

Lemma segment_app seg rest :
  47%N ∉ seg → segment (seg ++ 47%N :: rest) = Some (seg, rest).
Proof.
  induction seg as [|c seg IH]; intros Hno; [done|].
  apply not_elem_of_cons in Hno as [Hc Hno]. cbn.
  destruct (N.eqb_spec c 47) as [->|_]; [done|]. by rewrite IH.
Qed.

Lemma segment_Some s seg rest :
  segment s = Some (seg, rest) → s = seg ++ 47%N :: rest ∧ 47%N ∉ seg.
Proof.
  revert seg. induction s as [|c s IH]; intros seg; [done|]. cbn.
  destruct (N.eqb_spec c 47) as [->|Hc].
  - intros [= <- <-]. split; [done|apply not_elem_of_nil].
  - destruct (segment s) as [[seg' rest']|]; [|done]. intros [= <- <-].
    destruct (IH seg' eq_refl) as [-> Hno]. split; [done|].
    apply not_elem_of_cons. split; [congruence|done].
Qed.

(** X23.  [blobToRaw] returns exactly on the addresses made of the scheme
    with or without [s], the host [github.com], an owner, a repository and a
    branch without slash, each not empty, and a path that is not empty and
    has no line terminator; the result is the raw address of the same
    owner, repository, branch and path, always with the secure scheme. *)
Theorem blobToRaw_matches (blobUrl raw : jsstring) :
  blobToRaw blobUrl = Some raw ↔
  ∃ (secure : bool) (owner name branch filePath : jsstring),
    blobUrl = lit "http" ++ (if secure then lit "s" else []) ++ lit "://github.com/" ++
              owner ++ lit "/" ++ name ++ lit "/blob/" ++ branch ++ lit "/" ++ filePath ∧
    raw = lit "https://raw.githubusercontent.com/" ++
          owner ++ lit "/" ++ name ++ lit "/" ++ branch ++ lit "/" ++ filePath ∧
    (47%N ∉ owner) ∧ (47%N ∉ name) ∧ (47%N ∉ branch) ∧
    owner ≠ [] ∧ name ≠ [] ∧ branch ≠ [] ∧ filePath ≠ [] ∧
    Forall (λ c, isLineTerminator c = false) filePath.
Proof.
  split.
  - unfold blobToRaw.
    destruct (strip_prefix (lit "http") blobUrl) as [afterHttp|] eqn:E0; [|done].
    apply strip_prefix_Some in E0.
    set (afterScheme := match afterHttp with 115%N :: r => r | _ => afterHttp end).
    assert (∃ secure : bool, afterHttp = (if secure then lit "s" else []) ++ afterScheme)
      as [secure Hs].
    { subst afterScheme. destruct afterHttp as [|c r]; [by exists false|].
      destruct (N.eqb_spec c 115) as [->|Hc]; [by exists true|].
      exists false. destruct c as [|p]; [done|].
      repeat match goal with
             | |- context [match ?q with _ => _ end] => is_var q; destruct q; cbn; try done
             end. }
    clearbody afterScheme.
    destruct (strip_prefix _ afterScheme) as [r1|] eqn:E1; [|done].
    apply strip_prefix_Some in E1.
    destruct (segment r1) as [[owner r2]|] eqn:E2; [|done].
    apply segment_Some in E2 as [-> Ho].
    destruct (segment r2) as [[name r3]|] eqn:E3; [|done].
    apply segment_Some in E3 as [-> Hn].
    destruct (strip_prefix _ r3) as [r4|] eqn:E4; [|done].
    apply strip_prefix_Some in E4 as ->.
    destruct (segment r4) as [[branch filePath]|] eqn:E5; [|done].
    apply segment_Some in E5 as [-> Hb].
    destruct (_ && _) eqn:Hc; [|done]. intros [= <-].
    rewrite !andb_true_iff in Hc. destruct Hc as [[[[H1 H2] H3] H4] H5].
    exists secure, owner, name, branch, filePath.
    split; [by rewrite E0, Hs, E1, <- ?app_assoc|].
    split; [by rewrite <- ?app_assoc|].
    split_and!; try done; try (by intros ->).
    pose proof (proj1 (forallb_forall _ _) H5) as H5'. apply Forall_forall. intros c Hin.
    apply list_elem_of_In, H5', negb_true_iff in Hin. done.
  - intros (secure & owner & name & branch & filePath & -> & -> &
            Ho & Hn & Hb & Ho' & Hn' & Hb' & Hf' & Hlt).
    unfold blobToRaw. rewrite strip_prefix_app. cbv beta iota zeta.
    match goal with
    | |- context [strip_prefix (lit "://github.com/") ?m] =>
        assert (m = lit "://github.com/" ++ owner ++ lit "/" ++ name ++ lit "/blob/" ++
                    branch ++ lit "/" ++ filePath) as -> by (by destruct secure)
    end.
    rewrite strip_prefix_app.
    change (lit "/" ++ name ++ ?x) with (47%N :: name ++ x).
    rewrite segment_app by done.
    change (lit "/blob/" ++ ?x) with (47%N :: lit "blob/" ++ x).
    rewrite segment_app by done. rewrite strip_prefix_app.
    change (lit "/" ++ filePath) with (47%N :: filePath).
    rewrite segment_app by done.
    assert (∀ s : jsstring, s ≠ [] → truthy s = true) as Ht by (by intros [|??]).
    rewrite !Ht by done. cbn [andb].
    assert (forallb (λ c, negb (isLineTerminator c)) filePath = true) as ->.
    { apply forallb_forall. intros c Hin. apply list_elem_of_In in Hin.
      rewrite Forall_forall in Hlt. by rewrite (Hlt c Hin). }
    by rewrite <- ?app_assoc.
Qed.

Lemma blobToRaw_matches_witness :
  blobToRaw blob_address =
    Some (lit "https://raw.githubusercontent.com/owner/repo/main/examples/notebook.ts").
Proof.
  apply (blobToRaw_matches blob_address).
  exists true, (lit "owner"), (lit "repo"), (lit "main"), (lit "examples/notebook.ts").
  split; [reflexivity|]. split; [reflexivity|].
  split_and!; try (apply (bool_decide_unpack _); vm_compute; exact I); discriminate.
Defined.

End UrlFacts.
